(** * deepseektg: a Telegram relay for a streaming completion service

    Shallow embedding of [deepseektg.py] and the properties of its two
    handlers, [start] and [handle_message], of the streaming adapter
    [stream_fireworks_api] and of the text clean-up applied before every
    edit of the reply message. *)

From Stdlib Require Import String Ascii ZArith NArith QArith Lia Lqa Bool Sorted.
From stdpp Require Import base decidable list gmap.

Local Open Scope Z_scope.

(** ** Python strings

    A Python [str] is a sequence of Unicode code points; [len], slicing,
    [re] and [str.strip] all work code point by code point. *)

Module Py.

Definition char := N.
Definition str := list char.

(** The literals of the source are ASCII; [lit] reads one. *)
Definition lit (s : string) : str :=
  List.map N_of_ascii (list_ascii_of_string s).

Definition len (s : str) : Z := Z.of_nat (length s).

(** [str.isspace] for one code point, as [str.strip()] uses it: the ASCII
    white space and separators, then the Unicode white-space code points. *)
Definition isspace (c : char) : bool :=
  ((9 <=? c) && (c <=? 13) || (28 <=? c) && (c <=? 32)
   || (c =? 133) || (c =? 160) || (c =? 5760)
   || (8192 <=? c) && (c <=? 8202)
   || (c =? 8232) || (c =? 8233) || (c =? 8239) || (c =? 8287)
   || (c =? 12288))%N.

Fixpoint lstrip (s : str) : str :=
  match s with
  | c :: s' => if isspace c then lstrip s' else s
  | [] => []
  end.

Definition rstrip (s : str) : str := rev (lstrip (rev s)).

(** [s.strip()] *)
Definition strip (s : str) : str := rstrip (lstrip s).

(** [s[start:]], with Python's treatment of a negative or too large
    [start]. *)
Definition slice_from (start : Z) (s : str) : str :=
  let i := if start <? 0 then start + len s else start in
  drop (Z.to_nat (Z.max 0 i)) s.

(** [bool(s)]: only the empty string is falsy. *)
Definition truthy (s : str) : bool :=
  match s with [] => false | _ :: _ => true end.

End Py.

Abbreviation pystr := Py.str.

(** ** The regular expression [<.*?>]

    Without [re.DOTALL] a dot matches every code point but the line feed.
    The lazy star takes as few of them as it can, so a match that starts at
    a [<] ends at the first [>] after it, and there is none when a line feed
    comes first. *)

Module Re.

Definition LT : Py.char := 60%N.
Definition GT : Py.char := 62%N.
Definition LF : Py.char := 10%N.

Definition dot (c : Py.char) : bool := negb (c =? LF)%N.

(** [lazy_tail s]: match [.*?>] at the start of [s]; the number of code
    points the match takes. *)
Fixpoint lazy_tail (s : pystr) : option nat :=
  match s with
  | [] => None
  | c :: s' =>
      if (c =? GT)%N then Some 1%nat
      else if dot c then option_map S (lazy_tail s')
      else None
  end.

(** [match_at s]: match [<.*?>] at the start of [s]. *)
Definition match_at (s : pystr) : option nat :=
  match s with
  | c :: s' => if (c =? LT)%N then option_map S (lazy_tail s') else None
  | [] => None
  end.

(** [sub_from skip s] is [re.sub] with the replacement [""], scanning from
    left to right: at each position outside a match the pattern is tried,
    a match is dropped whole ([skip] counts what is left of it) and the scan
    goes on after it; where there is no match the code point is kept. *)
Fixpoint sub_from (skip : nat) (s : pystr) : pystr :=
  match s with
  | [] => []
  | c :: s' =>
      match skip with
      | S k => sub_from k s'
      | O =>
          match match_at s with
          | Some (S k) => sub_from k s'
          | _ => c :: sub_from O s'
          end
      end
  end.

(** [re.sub(r"<.*?>", "", s)] *)
Definition sub (s : pystr) : pystr := sub_from O s.

End Re.

(** ** The display snapshot *)

Definition MAX_MESSAGE_LENGTH : Z := 4096.

(** [re.sub(r"<.*?>", "", accumulated_text).strip()] *)
Definition sanitize (accumulated_text : pystr) : pystr :=
  Py.strip (Re.sub accumulated_text).

(** The text handed to [edit_text]: lines 111-114 and 122-124. *)
Definition display (accumulated_text : pystr) : pystr :=
  let cleaned_text := sanitize accumulated_text in
  if Py.len cleaned_text >? MAX_MESSAGE_LENGTH
  then Py.slice_from (- MAX_MESSAGE_LENGTH) cleaned_text
  else cleaned_text.

(** ** Exceptions, events and the world

    What the handlers do to the outside is recorded as a trace of events.
    The outside answers through an environment: each reading of the
    monotonic clock, whether each call of the chat platform succeeds, and
    what the completion service streams back. *)

(** Instances of [Exception], which is what [except Exception] catches.
    Signals below [BaseException] only, such as a cancellation, are not
    failures of a call and stay out of the model. *)
Inductive exn :=
  | IndexError
  | Error (detail : string).

Inductive level := INFO | WARNING | ERROR.

(** An argument of a logging call; the message is formatted lazily. *)
Inductive logarg :=
  | AInt (n : Z)
  | AStr (s : pystr)
  | AExc (e : exn).

(** The three operations of the chat platform the handlers use. *)
Inductive call :=
  | ReplyText (text : pystr)                        (* update.message.reply_text *)
  | SendChatAction (chat_id : Z) (action : pystr)   (* context.bot.send_chat_action *)
  | EditText (text : pystr).                        (* processing_message.edit_text *)

Inductive event :=
  | Log (lvl : level) (fmt : string) (args : list logarg) (exc_info : bool)
  | Call (c : call) (failure : option exn)
  | Create (model : string) (content : pystr).      (* client.chat.completions.create *)

(** One chunk of the streamed response: the [delta.content] of each of its
    [choices]. *)
Record chunk := { choices : list (option pystr) }.

(** What one pull of the response iterator gives: a chunk, or a failure. *)
Inductive item :=
  | Chunk (c : chunk)
  | Fault (e : exn).

(** [time.monotonic()] gives seconds as a float; a reading is taken here as
    a rational and the difference of two readings as exact. *)
Record env := {
  monotonic : nat -> Q;             (* the k-th reading of time.monotonic() *)
  telegram : nat -> option exn;     (* the failure of the k-th platform call, if any *)
  completion : list item            (* the response to the request, to its exhaustion *)
}.

Record world := {
  started_users : gset Z;
  clock_reads : nat;
  calls_made : nat;
  trace : list event
}.

Definition AUTHORIZED_USERS : list Z := [123456789; 987654321].

(** ** A state and exception monad *)

Inductive result (A : Type) :=
  | Ok (a : A)
  | Raise (e : exn).
Arguments Ok {A} a.
Arguments Raise {A} e.

Definition M (A : Type) : Type := world -> result A * world.

Definition ret {A} (a : A) : M A := fun w => (Ok a, w).

Definition bind {A B} (m : M A) (k : A -> M B) : M B :=
  fun w =>
    match m w with
    | (Ok a, w') => k a w'
    | (Raise e, w') => (Raise e, w')
    end.

Definition raise {A} (e : exn) : M A := fun w => (Raise e, w).

(** [try: body  except Exception as e: handler] *)
Definition try_except {A} (body : M A) (handler : exn -> M A) : M A :=
  fun w =>
    match body w with
    | (Ok a, w') => (Ok a, w')
    | (Raise e, w') => handler e w'
    end.

#[global] Instance M_ret : MRet M := @ret.
#[global] Instance M_bind : MBind M := fun A B k m => bind m k.

Definition emit (e : event) : M unit :=
  fun w => (Ok tt, {| started_users := started_users w;
                      clock_reads := clock_reads w;
                      calls_made := calls_made w;
                      trace := trace w ++ [e] |}).

Definition logging_info fmt args : M unit := emit (Log INFO fmt args false).
Definition logging_warning fmt args : M unit := emit (Log WARNING fmt args false).
Definition logging_error fmt args : M unit := emit (Log ERROR fmt args false).
(** [logging.exception] logs at level ERROR with the traceback. *)
Definition logging_exception fmt args : M unit := emit (Log ERROR fmt args true).

Section Handlers.

Variable E : env.

(** [time.monotonic()] *)
Definition time_monotonic : M Q :=
  fun w => (Ok (monotonic E (clock_reads w)),
            {| started_users := started_users w;
               clock_reads := S (clock_reads w);
               calls_made := calls_made w;
               trace := trace w |}).

(** An awaited call of the chat platform: it is recorded with its outcome,
    and raises when the platform fails it. *)
Definition await_call (c : call) : M unit :=
  fun w =>
    let failure := telegram E (calls_made w) in
    let w' := {| started_users := started_users w;
                 clock_reads := clock_reads w;
                 calls_made := S (calls_made w);
                 trace := trace w ++ [Call c failure] |} in
    match failure with
    | None => (Ok tt, w')
    | Some e => (Raise e, w')
    end.

Definition reply_text (text : pystr) : M unit := await_call (ReplyText text).
Definition send_chat_action (chat_id : Z) (action : pystr) : M unit :=
  await_call (SendChatAction chat_id action).
Definition edit_text (text : pystr) : M unit := await_call (EditText text).

Definition get_started_users : M (gset Z) := fun w => (Ok (started_users w), w).

(** [started_users.add(user_id)] *)
Definition started_users_add (user_id : Z) : M unit :=
  fun w => (Ok tt, {| started_users := {[user_id]} ∪ started_users w;
                      clock_reads := clock_reads w;
                      calls_made := calls_made w;
                      trace := trace w |}).

(** ** The streaming adapter *)

(** A generator that has been given its input is a finite lazy sequence:
    each pull yields a value, ends the sequence ([StopIteration]) or raises. *)
Inductive stream :=
  | Stop
  | Throw (e : exn)
  | Yield (chunk : pystr) (rest : stream).

(** The inner [generator()], lines 40-48, over the response iterator. A
    chunk without choices makes [chunk.choices[0]] raise; a chunk whose
    content is [None] or [""] is passed over. *)
Fixpoint generator (response_generator : list item) : stream :=
  match response_generator with
  | [] => Stop
  | Fault e :: _ => Throw e
  | Chunk c :: rest =>
      match choices c with
      | [] => Throw IndexError
      | Some content :: _ =>
          if Py.truthy content then Yield content (generator rest)
          else generator rest
      | None :: _ => generator rest
      end
  end.

(** One pull, [next(gen)]: the value and the generator after it. *)
Inductive pulled :=
  | StopIteration
  | Raised (e : exn)
  | Value (chunk : pystr) (gen : stream).

Definition next (gen : stream) : pulled :=
  match gen with
  | Stop => StopIteration
  | Throw e => Raised e
  | Yield chunk rest => Value chunk rest
  end.

(** [get_next_chunk], lines 53-57: exhaustion becomes the sentinel [None],
    any other exception goes through. *)
Definition get_next_chunk (gen : stream) : result (option (pystr * stream)) :=
  match next gen with
  | StopIteration => Ok None
  | Raised e => Raise e
  | Value chunk gen' => Ok (Some (chunk, gen'))
  end.

(** The [while True] loop of lines 59-63, as the sequence it yields. The
    measure [n] bounds the pulls; [pulls gen] is enough of it. *)
Fixpoint while_true (n : nat) (gen : stream) : stream :=
  match n with
  | O => Stop
  | S n' =>
      match get_next_chunk gen with
      | Ok None => Stop
      | Ok (Some (chunk, gen')) => Yield chunk (while_true n' gen')
      | Raise e => Throw e
      end
  end.

Fixpoint pulls (gen : stream) : nat :=
  match gen with
  | Yield _ rest => S (pulls rest)
  | _ => 1%nat
  end.

Definition MODEL : string := "accounts/fireworks/models/deepseek-r1".

(** [stream_fireworks_api(user_text)]. The request is sent by the first
    pull, which in [handle_message] follows at once, so the event is
    recorded here. *)
Definition stream_fireworks_api (user_text : pystr) : M stream :=
  emit (Create MODEL user_text);;
  let gen := generator (completion E) in
  mret (while_true (pulls gen) gen).

(** ** The handlers *)

Record update := {
  from_user_id : Z;            (* update.message.from_user.id *)
  message_text : pystr;        (* update.message.text *)
  effective_chat_id : Z        (* update.effective_chat.id *)
}.

Definition NOT_AUTHORIZED : pystr := Py.lit "You're not authorized to use this bot.".
Definition HELLO : pystr :=
  Py.lit "Hello! You're authorized. Send me a message and I'll reply using Fireworks AI.".
Definition PLEASE_START : pystr := Py.lit "Please type /start to begin.".
Definition PROCESSING : pystr := Py.lit "Processing your request, please wait...".
Definition APOLOGY : pystr := Py.lit "Sorry, there was an error processing your request.".

(** [start], lines 65-76. *)
Definition start (u : update) : M unit :=
  let user_id := from_user_id u in
  logging_info "User %s used /start" [AInt user_id];;
  if negb (bool_decide (user_id ∈ AUTHORIZED_USERS)) then
    logging_warning "Unauthorized user %s tried to use /start." [AInt user_id];;
    reply_text NOT_AUTHORIZED
  else
    started_users_add user_id;;
    reply_text HELLO.

(** The [async for] loop of lines 106-119; it returns [accumulated_text]. *)
Fixpoint drain (chunks : stream) (accumulated_text : pystr) (last_update_time : Q)
  : M pystr :=
  match chunks with
  | Stop => mret accumulated_text
  | Throw e => raise e
  | Yield chunk rest =>
      let accumulated_text := accumulated_text ++ chunk in
      now ← time_monotonic;
      if Qle_bool 4 (now - last_update_time) then
        try_except
          (edit_text (display accumulated_text))
          (fun e => logging_error "Error updating message: %s" [AExc e]);;
        drain rest accumulated_text now
      else
        drain rest accumulated_text last_update_time
  end.

(** [handle_message], lines 78-128. *)
Definition handle_message (u : update) : M unit :=
  let user_id := from_user_id u in
  let user_text := message_text u in
  logging_info "Received message from user %s: %s" [AInt user_id; AStr user_text];;
  if negb (bool_decide (user_id ∈ AUTHORIZED_USERS)) then
    logging_warning "Unauthorized user %s sent a message. Ignoring." [AInt user_id]
  else
    started ← get_started_users;
    if negb (bool_decide (user_id ∈ started)) then
      reply_text PLEASE_START
    else
      reply_text PROCESSING;;
      send_chat_action (effective_chat_id u) (Py.lit "typing");;
      last_update_time ← time_monotonic;
      try_except
        (chunks ← stream_fireworks_api user_text;
         accumulated_text ← drain chunks [] last_update_time;
         edit_text (display accumulated_text))
        (fun e =>
           logging_exception "Error during streaming: %s" [AExc e];;
           edit_text APOLOGY).

End Handlers.

(** ** Observations on a run *)

(** A handler starts on a world that holds the started users and nothing
    else; the environment is read from its first entry. *)
Definition initial (started : gset Z) : world :=
  {| started_users := started; clock_reads := 0; calls_made := 0; trace := [] |}.

Definition outcome {A} (r : result A * world) : result A := fst r.
Definition final {A} (r : result A * world) : world := snd r.

(** The platform calls of a trace, in order. *)
Definition calls (t : list event) : list call :=
  omap (fun e => match e with Call c _ => Some c | _ => None end) t.

(** The texts of the edits of a trace, in order. *)
Definition edits (t : list event) : list pystr :=
  omap (fun e => match e with Call (EditText s) _ => Some s | _ => None end) t.

(** The requests sent to the completion service. *)
Definition creates (t : list event) : list pystr :=
  omap (fun e => match e with Create _ s => Some s | _ => None end) t.

(** The values a stream yields, and how it ends. *)
Fixpoint fragments (s : stream) : list pystr :=
  match s with
  | Yield chunk rest => chunk :: fragments rest
  | _ => []
  end.

Fixpoint ending (s : stream) : option exn :=
  match s with
  | Stop => None
  | Throw e => Some e
  | Yield _ rest => ending rest
  end.

(** The first choice's content of every chunk of a response. *)
Definition delta_content (c : chunk) : option pystr :=
  match choices c with
  | content :: _ => content
  | [] => None
  end.

Definition has_choice (c : chunk) : bool :=
  match choices c with [] => false | _ :: _ => true end.

(** The contents that are neither [None] nor [""], in order. *)
Definition nonempty_contents (cs : list chunk) : list pystr :=
  omap (fun c => match delta_content c with
                 | Some s => if Py.truthy s then Some s else None
                 | None => None
                 end) cs.

(** A chunk that carries one choice with the given text. *)
Definition text_chunk (s : string) : item :=
  Chunk {| choices := [Some (Py.lit s)] |}.

(** ** The sanitization as the specification words it

    The pattern with "any characters" between the brackets, the line feed
    included. *)

Module Spec.

Fixpoint lazy_tail_any (s : pystr) : option nat :=
  match s with
  | [] => None
  | c :: s' =>
      if (c =? Re.GT)%N then Some 1%nat else option_map S (lazy_tail_any s')
  end.

Definition match_at_any (s : pystr) : option nat :=
  match s with
  | c :: s' => if (c =? Re.LT)%N then option_map S (lazy_tail_any s') else None
  | [] => None
  end.

Fixpoint sub_any_from (skip : nat) (s : pystr) : pystr :=
  match s with
  | [] => []
  | c :: s' =>
      match skip with
      | S k => sub_any_from k s'
      | O =>
          match match_at_any s with
          | Some (S k) => sub_any_from k s'
          | _ => c :: sub_any_from O s'
          end
      end
  end.

Definition sanitize_any (s : pystr) : pystr := Py.strip (sub_any_from O s).

End Spec.

(** The removal of tags, said without the scan: a tag is an opening bracket,
    code points that are neither a closing bracket nor a line feed, and a
    closing bracket; the text is read from the left, a tag is dropped where
    one starts, and a code point where none starts is kept. *)
Definition no_tag_at (s : pystr) : Prop :=
  match s with
  | [] => True
  | c :: s' =>
      c <> Re.LT \/
      forall body rest, s' = body ++ Re.GT :: rest -> Re.LF ∈ body
  end.

Inductive tags_removed : pystr -> pystr -> Prop :=
  | tr_nil : tags_removed [] []
  | tr_tag body rest out :
      Re.GT ∉ body -> Re.LF ∉ body ->
      tags_removed rest out ->
      tags_removed (Re.LT :: body ++ Re.GT :: rest) out
  | tr_keep c s out :
      no_tag_at (c :: s) ->
      tags_removed s out ->
      tags_removed (c :: s) (c :: out).

(** What [str.strip] leaves: a text that neither starts nor ends with white
    space. *)
Definition trimmed (s : pystr) : Prop :=
  match s with c :: _ => Py.isspace c = false | [] => True end /\
  match last s with Some c => Py.isspace c = false | None => True end.

Definition all_space (s : pystr) : Prop := Forall (fun c => Py.isspace c = true) s.

(** The world after [reads] readings of the clock, [ncalls] platform calls
    and the events [evs]. *)
Definition step (reads ncalls : nat) (evs : list event) (w : world) : world :=
  {| started_users := started_users w;
     clock_reads := reads + clock_reads w;
     calls_made := ncalls + calls_made w;
     trace := trace w ++ evs |}.

(** The events of one intermediate edit: the call, and the error record
    when it fails. *)
Definition flush_events (text : pystr) (failure : option exn) : list event :=
  Call (EditText text) failure ::
  match failure with
  | Some e => [Log ERROR "Error updating message: %s" [AExc e] false]
  | None => []
  end.

(** The events of a drain that starts with the buffer [acc] and receives
    the fragments [frs]: fragment after fragment, nothing or one
    intermediate edit that shows the buffer with that fragment appended. *)
Inductive flushes : pystr -> list pystr -> list event -> Prop :=
  | fl_done acc : flushes acc [] []
  | fl_wait acc c frs evs :
      flushes (acc ++ c) frs evs -> flushes acc (c :: frs) evs
  | fl_flush acc c frs failure evs :
      flushes (acc ++ c) frs evs ->
      flushes acc (c :: frs) (flush_events (display (acc ++ c)) failure ++ evs).

(** The events that close a request whose stream ended as [ended], the
    buffer being [buf]: the final edit, or the apology; [fin] and [apo] are
    the platform's answers to them. *)
Definition closing_events (ended : option exn) (buf : pystr) (fin apo : option exn)
  : list event :=
  let apology e :=
    [Log ERROR "Error during streaming: %s" [AExc e] true; Call (EditText APOLOGY) apo] in
  match ended with
  | Some e => apology e
  | None =>
      Call (EditText (display buf)) fin ::
      match fin with Some e => apology e | None => [] end
  end.

(** The events before the stream is read: the log record, the placeholder,
    the typing indicator and the request to the completion service. *)
Definition opening_events (u : update) : list event :=
  [Log INFO "Received message from user %s: %s"
     [AInt (from_user_id u); AStr (message_text u)] false;
   Call (ReplyText PROCESSING) None;
   Call (SendChatAction (effective_chat_id u) (Py.lit "typing")) None;
   Create MODEL (message_text u)].

(** How the handler ends after the events of [closing_events]. *)
Definition closing_outcome (ended fin apo : option exn) : result unit :=
  match ended, fin with
  | None, None => Ok tt
  | _, _ => match apo with Some e => Raise e | None => Ok tt end
  end.

(** What the drain loop returns on the stream [s], entered with the buffer
    [acc]. *)
Definition drained (s : stream) (acc : pystr) : result pystr :=
  match ending s with
  | None => Ok (acc ++ concat (fragments s))
  | Some e => Raise e
  end.

(** A run is quiet when every reading of the clock taken on the arrival of
    a fragment is less than 4 seconds after the reading taken at the start. *)
Definition quiet (E : env) : Prop :=
  forall k, (1 <= k <= length (fragments (generator (completion E))))%nat ->
            (monotonic E k - monotonic E 0 < 4)%Q.

(** A computation keeps the started users when, from every world, it ends
    on a world with the same set. *)
Definition keeps_started {A} (m : M A) : Prop :=
  forall w, started_users (snd (m w)) = started_users w.

(** The snapshot of the buffer after the first [k] of the fragments [frs]. *)
Definition snapshot (frs : list pystr) (k : nat) : pystr :=
  display (concat (take k frs)).

(** ** Scenarios

    Concrete senders and environments, on which the properties below are
    run. *)

Definition alice : update :=
  {| from_user_id := 123456789; message_text := Py.lit "hello"; effective_chat_id := 7 |}.

Definition stranger : update :=
  {| from_user_id := 42; message_text := Py.lit "hello"; effective_chat_id := 8 |}.

(** A platform that fails exactly its [k]-th call. *)
Definition fails_at (k : nat) (e : exn) : nat -> option exn :=
  fun i => if Nat.eqb i k then Some e else None.

Definition never_fails : nat -> option exn := fun _ => None.

(** A clock that stands still, and one that reads the seconds given. *)
Definition still : nat -> Q := fun _ => 0%Q.

Definition readings (l : list Z) : nat -> Q :=
  fun k => inject_Z (nth k l (List.last l 0)).

(** * Properties *)

Example sanitize_tags :
  sanitize (Py.lit " <think>a</think> b <c ") = Py.lit "a b <c".
Proof. vm_compute. reflexivity. Qed.

(** ** The regular expression *)

Lemma lazy_tail_some s n :
  Re.lazy_tail s = Some n ->
  exists body rest,
    s = body ++ Re.GT :: rest /\ (Re.GT ∉ body) /\ (Re.LF ∉ body) /\ n = S (length body).
Proof.
  revert n. induction s as [|c s IH]; intros n H; simpl in H; [discriminate|].
  destruct (N.eqb_spec c Re.GT) as [->|Hgt].
  - injection H as <-. exists [], s. repeat split; auto using not_elem_of_nil.
  - unfold Re.dot in H. destruct (N.eqb_spec c Re.LF) as [->|Hlf]; simpl in H; [discriminate|].
    destruct (Re.lazy_tail s) as [m|] eqn:Hm; simpl in H; [|discriminate].
    injection H as <-.
    destruct (IH m eq_refl) as (body & rest & -> & Hb1 & Hb2 & ->).
    exists (c :: body), rest. repeat split; auto.
    + rewrite not_elem_of_cons. auto.
    + rewrite not_elem_of_cons. auto.
Qed.

Lemma lazy_tail_tag body rest :
  Re.GT ∉ body -> Re.LF ∉ body ->
  Re.lazy_tail (body ++ Re.GT :: rest) = Some (S (length body)).
Proof.
  induction body as [|c body IH]; intros Hgt Hlf; simpl.
  - reflexivity.
  - apply not_elem_of_cons in Hgt as [Hc1 Hgt].
    apply not_elem_of_cons in Hlf as [Hc2 Hlf].
    destruct (N.eqb_spec c Re.GT); [congruence|].
    unfold Re.dot. destruct (N.eqb_spec c Re.LF); [congruence|]. simpl.
    rewrite IH; auto.
Qed.

Lemma lazy_tail_none s :
  Re.lazy_tail s = None <->
  (forall body rest, s = body ++ Re.GT :: rest -> Re.LF ∈ body).
Proof.
  split.
  - induction s as [|c s IH]; intros H body rest Hs.
    + destruct body; discriminate.
    + simpl in H. destruct (N.eqb_spec c Re.GT) as [->|Hgt]; [discriminate|].
      destruct body as [|b body]; simpl in Hs; injection Hs as Hc Hs;
        [congruence|]. subst b s.
      unfold Re.dot in H. destruct (N.eqb_spec c Re.LF) as [->|Hlf].
      * apply list_elem_of_here.
      * simpl in H. apply list_elem_of_further, (IH) with (rest := rest); [|reflexivity].
        destruct (Re.lazy_tail (body ++ Re.GT :: rest)); [discriminate|reflexivity].
  - intros H. destruct (Re.lazy_tail s) as [n|] eqn:Hn; [|reflexivity].
    destruct (lazy_tail_some _ _ Hn) as (body & rest & Hs & _ & Hlf & _).
    destruct (Hlf (H body rest Hs)).
Qed.

Lemma match_at_none s : Re.match_at s = None <-> no_tag_at s.
Proof.
  destruct s as [|c s]; simpl; [tauto|].
  destruct (N.eqb_spec c Re.LT) as [->|Hlt].
  - rewrite <- lazy_tail_none. destruct (Re.lazy_tail s); simpl; split; intros H;
      try discriminate; try tauto.
    destruct H as [H|H]; congruence.
  - tauto.
Qed.

Lemma sub_from_drop n s : Re.sub_from n s = Re.sub (drop n s).
Proof.
  revert n. induction s as [|c s IH]; intros [|n]; try reflexivity.
  simpl. apply IH.
Qed.

Lemma sub_keep c s : Re.match_at (c :: s) = None -> Re.sub (c :: s) = c :: Re.sub s.
Proof.
  intros H. unfold Re.sub.
  change (Re.sub_from 0 (c :: s))
    with (match Re.match_at (c :: s) with
          | Some (S k) => Re.sub_from k s
          | _ => c :: Re.sub_from 0 s
          end).
  rewrite H. reflexivity.
Qed.

Lemma sub_tag body rest :
  Re.GT ∉ body -> Re.LF ∉ body ->
  Re.sub (Re.LT :: body ++ Re.GT :: rest) = Re.sub rest.
Proof.
  intros Hgt Hlf. unfold Re.sub. simpl.
  rewrite (lazy_tail_tag body rest Hgt Hlf). simpl.
  rewrite sub_from_drop.
  replace (S (length body)) with (length body + 1)%nat by lia.
  rewrite drop_app_add. reflexivity.
Qed.

Lemma sub_length s : (length (Re.sub s) <= length s)%nat.
Proof.
  unfold Re.sub. generalize 0%nat as n. induction s as [|c s IH]; intros n; simpl; [lia|].
  destruct n as [|n]; [|specialize (IH n); lia].
  destruct (c =? Re.LT)%N; simpl.
  - destruct (Re.lazy_tail s) as [k|]; simpl.
    + specialize (IH k). lia.
    + specialize (IH 0%nat). lia.
  - specialize (IH 0%nat). lia.
Qed.

(** [Re.sub] is the removal of tags, and the only one. *)
Lemma sub_removes s : tags_removed s (Re.sub s).
Proof.
  remember (length s) as n eqn:Hn. revert s Hn.
  induction n as [n IH] using lt_wf_ind. intros s Hn.
  destruct s as [|c s]; [constructor|].
  destruct (Re.match_at (c :: s)) as [k|] eqn:Hk.
  - simpl in Hk. destruct (N.eqb_spec c Re.LT) as [->|]; [|discriminate].
    destruct (Re.lazy_tail s) as [m|] eqn:Hm; [|discriminate].
    destruct (lazy_tail_some _ _ Hm) as (body & rest & -> & Hgt & Hlf & ->).
    rewrite sub_tag by assumption. constructor; [assumption..|].
    apply (IH (length rest)); [|reflexivity].
    subst n. simpl. rewrite length_app. simpl. lia.
  - rewrite sub_keep by assumption. constructor.
    + apply match_at_none, Hk.
    + apply (IH (length s)); [subst n; simpl; lia|reflexivity].
Qed.

Lemma removed_is_sub s out : tags_removed s out -> out = Re.sub s.
Proof.
  induction 1 as [|body rest out Hgt Hlf _ IH|c s out Hno _ IH].
  - reflexivity.
  - rewrite sub_tag by assumption. exact IH.
  - rewrite sub_keep by (apply match_at_none, Hno). congruence.
Qed.

(** No tag is left: nothing in the result matches the pattern. *)
Lemma lazy_tail_sub_none s : Re.lazy_tail s = None -> Re.lazy_tail (Re.sub s) = None.
Proof.
  induction s as [|c s IH]; intros H; [reflexivity|].
  simpl in H. destruct (N.eqb_spec c Re.GT) as [->|Hgt]; [discriminate|].
  unfold Re.dot in H. destruct (N.eqb_spec c Re.LF) as [->|Hlf]; simpl in H.
  - rewrite sub_keep by reflexivity. reflexivity.
  - assert (Hs : Re.lazy_tail s = None) by (destruct (Re.lazy_tail s); [discriminate|reflexivity]).
    rewrite sub_keep.
    + simpl. destruct (N.eqb_spec c Re.GT); [congruence|].
      unfold Re.dot. destruct (N.eqb_spec c Re.LF); [congruence|]. simpl.
      rewrite (IH Hs). reflexivity.
    + simpl. rewrite Hs. destruct (c =? Re.LT)%N; reflexivity.
Qed.

Lemma sub_no_match s i : Re.match_at (drop i (Re.sub s)) = None.
Proof.
  revert i. remember (length s) as n eqn:Hn. revert s Hn.
  induction n as [n IH] using lt_wf_ind. intros s Hn i.
  destruct s as [|c s]; [destruct i; reflexivity|].
  destruct (Re.match_at (c :: s)) as [k|] eqn:Hk.
  - simpl in Hk. destruct (N.eqb_spec c Re.LT) as [->|]; [|discriminate].
    destruct (Re.lazy_tail s) as [m|] eqn:Hm; [|discriminate].
    destruct (lazy_tail_some _ _ Hm) as (body & rest & -> & Hgt & Hlf & ->).
    rewrite sub_tag by assumption.
    apply (IH (length rest)); [|reflexivity].
    subst n. simpl. rewrite length_app. simpl. lia.
  - rewrite sub_keep by assumption.
    destruct i as [|i]; simpl drop.
    + simpl in Hk |- *. destruct (c =? Re.LT)%N; [|reflexivity].
      rewrite lazy_tail_sub_none; [reflexivity|].
      destruct (Re.lazy_tail s); [discriminate|reflexivity].
    + apply (IH (length s)); [subst n; simpl; lia|reflexivity].
Qed.

(** ** Trimming *)

Lemma lstrip_split s : exists l, s = l ++ Py.lstrip s /\ all_space l.
Proof.
  induction s as [|c s (l & Hs & Hl)]; [exists []; split; [reflexivity|constructor]|].
  simpl. destruct (Py.isspace c) eqn:Hc.
  - exists (c :: l). split; [simpl; congruence|constructor; assumption].
  - exists []. split; [reflexivity|constructor].
Qed.

Lemma lstrip_head s :
  match Py.lstrip s with c :: _ => Py.isspace c = false | [] => True end.
Proof.
  induction s as [|c s IH]; simpl; [exact I|].
  destruct (Py.isspace c) eqn:Hc; [exact IH|exact Hc].
Qed.

Lemma rstrip_split s : exists r, s = Py.rstrip s ++ r /\ all_space r.
Proof.
  destruct (lstrip_split (rev s)) as (l & Hs & Hl).
  exists (rev l). split.
  - unfold Py.rstrip. rewrite <- rev_app_distr, <- Hs, rev_involutive. reflexivity.
  - apply Forall_rev, Hl.
Qed.

Lemma rstrip_last s :
  match last (Py.rstrip s) with Some c => Py.isspace c = false | None => True end.
Proof.
  unfold Py.rstrip. pose proof (lstrip_head (rev s)) as H.
  destruct (Py.lstrip (rev s)) as [|c t]; [exact I|].
  simpl rev. rewrite last_snoc. exact H.
Qed.

Lemma strip_spec s :
  exists l r, s = l ++ Py.strip s ++ r /\ all_space l /\ all_space r /\
              trimmed (Py.strip s).
Proof.
  destruct (lstrip_split s) as (l & Hs & Hl).
  destruct (rstrip_split (Py.lstrip s)) as (r & Ht & Hr).
  exists l, r. unfold Py.strip. repeat split; try assumption.
  - rewrite <- Ht. exact Hs.
  - pose proof (lstrip_head s) as H. rewrite Ht in H.
    destruct (Py.rstrip (Py.lstrip s)); [exact I|exact H].
  - apply rstrip_last.
Qed.

(** ** Keeping the end *)

Lemma display_short buf :
  Py.len (sanitize buf) <= MAX_MESSAGE_LENGTH -> display buf = sanitize buf.
Proof.
  intros H. unfold display.
  destruct (Z.gtb_spec (Py.len (sanitize buf)) MAX_MESSAGE_LENGTH); [lia|reflexivity].
Qed.

Lemma display_long buf :
  Py.len (sanitize buf) > MAX_MESSAGE_LENGTH ->
  exists front, sanitize buf = front ++ display buf /\
                Py.len (display buf) = MAX_MESSAGE_LENGTH.
Proof.
  intros H. unfold display.
  destruct (Z.gtb_spec (Py.len (sanitize buf)) MAX_MESSAGE_LENGTH) as [_|]; [|lia].
  unfold Py.slice_from. set (s := sanitize buf) in *.
  change (- MAX_MESSAGE_LENGTH <? 0) with true. cbv iota.
  set (n := Z.to_nat (Z.max 0 (- MAX_MESSAGE_LENGTH + Py.len s))).
  exists (take n s). split.
  - symmetry. apply take_drop.
  - unfold Py.len, MAX_MESSAGE_LENGTH in *. rewrite length_drop. subst n. lia.
Qed.

(** ** The adapter *)

Lemma while_true_pulls gen : while_true (pulls gen) gen = gen.
Proof.
  induction gen as [| |chunk rest IH]; try reflexivity.
  simpl. rewrite IH. reflexivity.
Qed.

(** ** Worlds *)

Lemma step_0 w : step 0 0 [] w = w.
Proof. destruct w. unfold step. simpl. rewrite app_nil_r. reflexivity. Qed.

Lemma step_step a b e a' b' e' w :
  step a b e (step a' b' e' w) = step (a + a') (b + b') (e' ++ e) w.
Proof.
  unfold step. simpl. f_equal; try lia. rewrite app_assoc. reflexivity.
Qed.

Lemma calls_app t1 t2 : calls (t1 ++ t2) = calls t1 ++ calls t2.
Proof. apply omap_app. Qed.

Lemma edits_app t1 t2 : edits (t1 ++ t2) = edits t1 ++ edits t2.
Proof. apply omap_app. Qed.

Lemma creates_app t1 t2 : creates (t1 ++ t2) = creates t1 ++ creates t2.
Proof. apply omap_app. Qed.

Lemma calls_flush_events text failure :
  calls (flush_events text failure) = [EditText text].
Proof. destruct failure; reflexivity. Qed.

(** ** The drain loop *)


Lemma drain_throw E e acc last w : drain E (Throw e) acc last w = (Raise e, w).
Proof. reflexivity. Qed.

Lemma drain_yield E c rest acc last w :
  drain E (Yield c rest) acc last w =
  let now := monotonic E (clock_reads w) in
  if Qle_bool 4 (now - last)
  then drain E rest (acc ++ c) now
         (step 1 1 (flush_events (display (acc ++ c)) (telegram E (calls_made w))) w)
  else drain E rest (acc ++ c) last (step 1 0 [] w).
Proof.
  simpl drain. unfold mbind, M_bind, bind, time_monotonic. cbv zeta.
  destruct (Qle_bool 4 (monotonic E (clock_reads w) - last)).
  - unfold try_except, edit_text, await_call, step, flush_events. simpl.
    destruct (telegram E (calls_made w)); simpl; rewrite <- ?app_assoc; reflexivity.
  - unfold step. simpl. rewrite app_nil_r. reflexivity.
Qed.

Lemma drain_spec E s : forall acc last w,
  exists evs,
    drain E s acc last w
    = (drained s acc, step (length (fragments s)) (length (calls evs)) evs w)
    /\ flushes acc (fragments s) evs.
Proof.
  induction s as [|e|c rest IH]; intros acc last w.
  - exists []. unfold drained. simpl. rewrite step_0, app_nil_r.
    split; [reflexivity|constructor].
  - exists []. unfold drained. simpl. rewrite step_0.
    split; [reflexivity|constructor].
  - assert (Hd : drained (Yield c rest) acc = drained rest (acc ++ c)).
    { unfold drained. simpl. rewrite <- app_assoc. reflexivity. }
    rewrite drain_yield, Hd. cbv zeta.
    destruct (Qle_bool 4 (monotonic E (clock_reads w) - last)).
    + set (f := telegram E (calls_made w)).
      destruct (IH (acc ++ c) (monotonic E (clock_reads w))
                  (step 1 1 (flush_events (display (acc ++ c)) f) w))
        as (evs & -> & Hfl).
      exists (flush_events (display (acc ++ c)) f ++ evs).
      split; [|constructor; exact Hfl].
      rewrite step_step, calls_app, length_app, calls_flush_events.
      simpl. do 2 f_equal; lia.
    + destruct (IH (acc ++ c) last (step 1 0 [] w)) as (evs & -> & Hfl).
      exists evs. split; [|constructor; exact Hfl].
      rewrite step_step. simpl. do 2 f_equal; lia.
Qed.

(** ** The primitive effects, as steps of the world *)

Lemma emit_step ev w : emit ev w = (Ok tt, step 0 0 [ev] w).
Proof. reflexivity. Qed.

Lemma time_monotonic_step E w :
  time_monotonic E w = (Ok (monotonic E (clock_reads w)), step 1 0 [] w).
Proof. unfold time_monotonic, step. simpl. rewrite app_nil_r. reflexivity. Qed.

Lemma await_call_step E c w :
  await_call E c w
  = (match telegram E (calls_made w) with Some e => Raise e | None => Ok tt end,
     step 0 1 [Call c (telegram E (calls_made w))] w).
Proof. unfold await_call. destruct (telegram E (calls_made w)); reflexivity. Qed.

Lemma bind_run {A B} (m : M A) (k : A -> M B) w :
  (m ≫= k) w
  = match m w with
    | (Ok a, w') => k a w'
    | (Raise e, w') => (Raise e, w')
    end.
Proof. reflexivity. Qed.

Lemma try_except_run {A} (body : M A) handler w :
  try_except body handler w
  = match body w with
    | (Ok a, w') => (Ok a, w')
    | (Raise e, w') => handler e w'
    end.
Proof. reflexivity. Qed.

Ltac run :=
  repeat first
    [ rewrite bind_run
    | rewrite try_except_run
    | rewrite emit_step
    | rewrite time_monotonic_step
    | rewrite await_call_step
    | rewrite step_step ];
  cbn [step calls_made clock_reads trace started_users initial Nat.add app].

(** The streaming path of [handle_message], once the events [evs] of the
    drain loop are known. *)
Lemma handle_message_after_drain E u su evs :
  from_user_id u ∈ AUTHORIZED_USERS -> from_user_id u ∈ su ->
  telegram E 0 = None -> telegram E 1 = None ->
  let s := generator (completion E) in
  let w := step 1 2 (opening_events u) (initial su) in
  drain E s [] (monotonic E 0) w
  = (drained s [], step (length (fragments s)) (length (calls evs)) evs w) ->
  let n := (2 + length (calls evs))%nat in
  let fin := telegram E n in
  let apo := telegram E (match ending s with None => S n | Some _ => n end) in
  let r := handle_message E u (initial su) in
  outcome r = closing_outcome (ending s) fin apo /\
  trace (final r)
  = opening_events u ++ evs ++ closing_events (ending s) (concat (fragments s)) fin apo /\
  started_users (final r) = su.
Proof.
  intros Hauth Hstarted H0 H1 s w Hdrain. subst w. cbv zeta.
  unfold handle_message.
  rewrite (bool_decide_eq_true_2 _ Hauth). cbn [negb].
  unfold logging_info, get_started_users, reply_text, send_chat_action.
  run. rewrite (bool_decide_eq_true_2 _ Hstarted). cbn [negb]. run.
  rewrite H0, H1. unfold stream_fireworks_api, logging_exception, edit_text. run.
  unfold mret, M_ret, ret. rewrite while_true_pulls. fold s. run.
  unfold opening_events in Hdrain. rewrite Hdrain. run.
  unfold drained, closing_outcome, closing_events.
  destruct (ending s) as [e|]; run;
    replace (length (calls evs) + 2 + 0)%nat with (S (S (length (calls evs)))) by lia.
  - unfold outcome, final. simpl. rewrite <- ?app_assoc. auto.
  - destruct (telegram E (S (S (length (calls evs))))) as [e|]; run.
    + unfold outcome, final. simpl. rewrite <- ?app_assoc.
      replace (S (length (calls evs) + 2 + 0))%nat
        with (S (S (S (length (calls evs))))) by lia.
      auto.
    + unfold outcome, final. simpl. auto.
Qed.

Lemma handle_message_streams E u su :
  from_user_id u ∈ AUTHORIZED_USERS -> from_user_id u ∈ su ->
  telegram E 0 = None -> telegram E 1 = None ->
  let s := generator (completion E) in
  exists evs,
    flushes [] (fragments s) evs /\
    let n := (2 + length (calls evs))%nat in
    let fin := telegram E n in
    let apo := telegram E (match ending s with None => S n | Some _ => n end) in
    let r := handle_message E u (initial su) in
    outcome r = closing_outcome (ending s) fin apo /\
    trace (final r)
    = opening_events u ++ evs ++ closing_events (ending s) (concat (fragments s)) fin apo /\
    started_users (final r) = su.
Proof.
  intros Hauth Hstarted H0 H1 s.
  destruct (drain_spec E s [] (monotonic E 0) (step 1 2 (opening_events u) (initial su)))
    as (evs & Hdrain & Hfl).
  exists evs. split; [exact Hfl|].
  apply handle_message_after_drain; assumption.
Qed.

(** The paths of [handle_message] that end before the stream is read. *)
Lemma handle_message_unauthorized E u su :
  from_user_id u ∉ AUTHORIZED_USERS ->
  handle_message E u (initial su)
  = (Ok tt,
     step 0 0
       [Log INFO "Received message from user %s: %s"
          [AInt (from_user_id u); AStr (message_text u)] false;
        Log WARNING "Unauthorized user %s sent a message. Ignoring."
          [AInt (from_user_id u)] false]
       (initial su)).
Proof.
  intros Hauth. unfold handle_message.
  rewrite (bool_decide_eq_false_2 _ Hauth). cbn [negb].
  unfold logging_info, logging_warning. run. reflexivity.
Qed.

Lemma handle_message_not_started E u su :
  from_user_id u ∈ AUTHORIZED_USERS -> from_user_id u ∉ su ->
  handle_message E u (initial su)
  = (match telegram E 0 with Some e => Raise e | None => Ok tt end,
     step 0 1
       [Log INFO "Received message from user %s: %s"
          [AInt (from_user_id u); AStr (message_text u)] false;
        Call (ReplyText PLEASE_START) (telegram E 0)]
       (initial su)).
Proof.
  intros Hauth Hstarted. unfold handle_message.
  rewrite (bool_decide_eq_true_2 _ Hauth). cbn [negb].
  unfold logging_info, get_started_users, reply_text. run.
  rewrite (bool_decide_eq_false_2 _ Hstarted). cbn [negb]. run. reflexivity.
Qed.

Lemma handle_message_placeholder_fails E u su e :
  from_user_id u ∈ AUTHORIZED_USERS -> from_user_id u ∈ su ->
  telegram E 0 = Some e ->
  handle_message E u (initial su)
  = (Raise e,
     step 0 1
       [Log INFO "Received message from user %s: %s"
          [AInt (from_user_id u); AStr (message_text u)] false;
        Call (ReplyText PROCESSING) (Some e)]
       (initial su)).
Proof.
  intros Hauth Hstarted H0. unfold handle_message.
  rewrite (bool_decide_eq_true_2 _ Hauth). cbn [negb].
  unfold logging_info, get_started_users, reply_text. run.
  rewrite (bool_decide_eq_true_2 _ Hstarted). cbn [negb]. run.
  rewrite H0. reflexivity.
Qed.

Lemma handle_message_typing_fails E u su e :
  from_user_id u ∈ AUTHORIZED_USERS -> from_user_id u ∈ su ->
  telegram E 0 = None -> telegram E 1 = Some e ->
  handle_message E u (initial su)
  = (Raise e,
     step 0 2
       [Log INFO "Received message from user %s: %s"
          [AInt (from_user_id u); AStr (message_text u)] false;
        Call (ReplyText PROCESSING) None;
        Call (SendChatAction (effective_chat_id u) (Py.lit "typing")) (Some e)]
       (initial su)).
Proof.
  intros Hauth Hstarted H0 H1. unfold handle_message.
  rewrite (bool_decide_eq_true_2 _ Hauth). cbn [negb].
  unfold logging_info, get_started_users, reply_text, send_chat_action. run.
  rewrite (bool_decide_eq_true_2 _ Hstarted). cbn [negb]. run.
  rewrite H0, H1. reflexivity.
Qed.

(** ** The clock *)

Lemma Qle_bool_false x y : (y < x)%Q -> Qle_bool x y = false.
Proof.
  intros H. destruct (Qle_bool x y) eqn:Hb; [|reflexivity].
  apply Qle_bool_iff in Hb. lra.
Qed.


(** While every reading stays under the threshold the loop edits nothing. *)
Lemma drain_quiet E s : forall acc last w,
  (forall k, (k < length (fragments s))%nat ->
             (monotonic E (clock_reads w + k) - last < 4)%Q) ->
  drain E s acc last w = (drained s acc, step (length (fragments s)) 0 [] w).
Proof.
  induction s as [|e|c rest IH]; intros acc last w Hq.
  - unfold drained. simpl. rewrite step_0, app_nil_r. reflexivity.
  - unfold drained. simpl. rewrite step_0. reflexivity.
  - rewrite drain_yield. cbv zeta.
    rewrite Qle_bool_false.
    + rewrite IH.
      * rewrite step_step. unfold drained. simpl. rewrite <- app_assoc.
        do 2 f_equal. unfold step. f_equal; lia.
      * intros k Hk. simpl. 
        replace (S (clock_reads w + k)) with (clock_reads w + S k)%nat by lia.
        apply Hq. simpl. lia.
    + specialize (Hq 0%nat). rewrite Nat.add_0_r in Hq. apply Hq. simpl. lia.
Qed.

(** ** The init command *)

Lemma start_unauthorized E u su :
  from_user_id u ∉ AUTHORIZED_USERS ->
  start E u (initial su)
  = (match telegram E 0 with Some e => Raise e | None => Ok tt end,
     step 0 1
       [Log INFO "User %s used /start" [AInt (from_user_id u)] false;
        Log WARNING "Unauthorized user %s tried to use /start."
          [AInt (from_user_id u)] false;
        Call (ReplyText NOT_AUTHORIZED) (telegram E 0)]
       (initial su)).
Proof.
  intros Hauth. unfold start.
  rewrite (bool_decide_eq_false_2 _ Hauth). cbn [negb].
  unfold logging_info, logging_warning, reply_text. run. reflexivity.
Qed.

Lemma stranger_unauthorized : from_user_id stranger ∉ AUTHORIZED_USERS.
Proof.
  unfold AUTHORIZED_USERS, stranger. simpl.
  rewrite !not_elem_of_cons. repeat split; try discriminate. apply not_elem_of_nil.
Qed.

Lemma alice_authorized : from_user_id alice ∈ AUTHORIZED_USERS.
Proof. apply list_elem_of_here. Qed.

(** * The claims *)

(** C6. A sender outside the authorization list who sends the init command
    gets exactly one reply, the "not authorized" one, and the set of started
    users stays as it was. When that sender sends a text message there is no
    platform call at all (no reply, no placeholder, no edit), no request to
    the completion service, and the set of started users stays as it was. *)
Theorem C6_unauthorized_sender E u su :
  from_user_id u ∉ AUTHORIZED_USERS ->
  (calls (trace (final (start E u (initial su)))) = [ReplyText NOT_AUTHORIZED]
   /\ creates (trace (final (start E u (initial su)))) = []
   /\ started_users (final (start E u (initial su))) = su)
  /\
  (calls (trace (final (handle_message E u (initial su)))) = []
   /\ creates (trace (final (handle_message E u (initial su)))) = []
   /\ started_users (final (handle_message E u (initial su))) = su
   /\ outcome (handle_message E u (initial su)) = Ok tt).
Proof.
  intros Hauth.
  rewrite (start_unauthorized E u su Hauth), (handle_message_unauthorized E u su Hauth).
  repeat split.
Qed.

Lemma C6_unauthorized_sender_witness :
  let E := {| monotonic := still; telegram := never_fails; completion := [] |} in
  (from_user_id stranger ∉ AUTHORIZED_USERS) /\
  calls (trace (final (start E stranger (initial ∅)))) = [ReplyText NOT_AUTHORIZED] /\
  calls (trace (final (handle_message E stranger (initial ∅)))) = [].
Proof.
  intros E.
  pose proof (C6_unauthorized_sender E stranger ∅ stranger_unauthorized)
    as ((Hs & _ & _) & (Hm & _)).
  split; [exact stranger_unauthorized|]. split; assumption.
Defined.

(** C7. An authorized sender who has not run the init command and sends a
    text message gets exactly one reply, the prompt to initialize; there is no
    request to the completion service, no placeholder, no edit, and the set of
    started users stays as it was. *)
Theorem C7_not_started_sender E u su :
  from_user_id u ∈ AUTHORIZED_USERS ->
  from_user_id u ∉ su ->
  calls (trace (final (handle_message E u (initial su)))) = [ReplyText PLEASE_START]
  /\ creates (trace (final (handle_message E u (initial su)))) = []
  /\ edits (trace (final (handle_message E u (initial su)))) = []
  /\ started_users (final (handle_message E u (initial su))) = su.
Proof.
  intros Hauth Hstarted.
  rewrite (handle_message_not_started E u su Hauth Hstarted).
  repeat split.
Qed.

Lemma C7_not_started_sender_witness :
  let E := {| monotonic := still; telegram := never_fails;
              completion := [text_chunk "Hi"] |} in
  (from_user_id alice ∈ AUTHORIZED_USERS) /\
  (from_user_id alice ∉ (∅ : gset Z)) /\
  calls (trace (final (handle_message E alice (initial ∅)))) = [ReplyText PLEASE_START] /\
  creates (trace (final (handle_message E alice (initial ∅)))) = [].
Proof.
  intros E.
  assert (Hs : from_user_id alice ∉ (∅ : gset Z)) by apply not_elem_of_empty.
  pose proof (C7_not_started_sender E alice ∅ alice_authorized Hs) as (Hc & Hr & _).
  split; [exact alice_authorized|]. split; [exact Hs|]. split; assumption.
Defined.

(** ** What the adapter yields *)

Lemma generator_nonempty items :
  Forall (fun f => f <> []) (fragments (generator items)).
Proof.
  induction items as [|[c|e] items IH]; simpl; try constructor.
  destruct (choices c) as [|[content|] ?]; simpl; try constructor; try exact IH.
  destruct content as [|a content]; simpl; [exact IH|].
  constructor; [discriminate|exact IH].
Qed.

Lemma generator_chunks cs :
  Forall (fun c => has_choice c = true) cs ->
  fragments (generator (map Chunk cs)) = nonempty_contents cs
  /\ ending (generator (map Chunk cs)) = None.
Proof.
  induction 1 as [|c cs Hc _ [IHf IHe]]; [split; reflexivity|].
  unfold nonempty_contents in *. simpl. unfold has_choice, delta_content in *.
  destruct (choices c) as [|[content|] ?]; [discriminate| |]; simpl.
  - destruct (Py.truthy content); simpl; [rewrite IHf|]; auto.
  - auto.
Qed.

(** C10. Every fragment the streaming adapter yields is a non-empty string.
    For a response made of chunks (each with a first choice), the chunks
    whose delta content is [None] or the empty string are passed over: the
    yielded sequence is exactly the non-empty contents in their order, the
    sequence ends normally, and the buffer the drain loop accumulates is
    their concatenation. *)
Theorem C10_adapter_yields_nonempty_contents E user_text w0 :
  exists s w,
    stream_fireworks_api E user_text w0 = (Ok s, w)
    /\ Forall (fun f => f <> []) (fragments s)
    /\ forall cs,
         completion E = map Chunk cs ->
         Forall (fun c => has_choice c = true) cs ->
         fragments s = nonempty_contents cs
         /\ ending s = None
         /\ forall last, outcome (drain E s [] last w)
                         = Ok (concat (nonempty_contents cs)).
Proof.
  unfold stream_fireworks_api. run.
  unfold mret, M_ret, ret. rewrite while_true_pulls.
  eexists _, _. split; [reflexivity|]. split; [apply generator_nonempty|].
  intros cs -> Hcs. destruct (generator_chunks cs Hcs) as [Hf He].
  split; [exact Hf|]. split; [exact He|]. intros last.
  match goal with |- context [drain ?E ?s ?a ?l ?w] =>
    destruct (drain_spec E s a l w) as (evs & -> & _) end.
  unfold outcome, drained. simpl. rewrite He, Hf. reflexivity.
Qed.

Lemma C10_adapter_yields_nonempty_contents_witness :
  let cs := [ {| choices := [Some (Py.lit "Hi")] |};
              {| choices := [None] |};
              {| choices := [Some (Py.lit "")] |};
              {| choices := [Some (Py.lit "!"); Some (Py.lit "no")] |} ] in
  let E := {| monotonic := still; telegram := never_fails; completion := map Chunk cs |} in
  Forall (fun c => has_choice c = true) cs /\
  exists s w,
    stream_fireworks_api E (Py.lit "hello") (initial ∅) = (Ok s, w)
    /\ fragments s = [Py.lit "Hi"; Py.lit "!"]
    /\ outcome (drain E s [] 0%Q w) = Ok (Py.lit "Hi!").
Proof.
  intros cs E.
  assert (Hcs : Forall (fun c => has_choice c = true) cs)
    by (repeat constructor).
  split; [exact Hcs|].
  destruct (C10_adapter_yields_nonempty_contents E (Py.lit "hello") (initial ∅))
    as (s & w & Hrun & _ & Hchunks).
  destruct (Hchunks cs eq_refl Hcs) as (Hf & _ & Hbuf).
  exists s, w. split; [exact Hrun|]. split; [exact Hf|]. exact (Hbuf 0%Q).
Defined.

(** ** Runs in which the threshold is never reached *)

Lemma handle_message_quiet E u su :
  from_user_id u ∈ AUTHORIZED_USERS -> from_user_id u ∈ su ->
  telegram E 0 = None -> telegram E 1 = None ->
  quiet E ->
  let s := generator (completion E) in
  let fin := telegram E 2 in
  let apo := telegram E (match ending s with None => 3 | Some _ => 2 end)%nat in
  let r := handle_message E u (initial su) in
  outcome r = closing_outcome (ending s) fin apo /\
  trace (final r)
  = opening_events u ++ closing_events (ending s) (concat (fragments s)) fin apo /\
  started_users (final r) = su.
Proof.
  intros Hauth Hstarted H0 H1 Hq.
  apply (handle_message_after_drain E u su [] Hauth Hstarted H0 H1).
  apply drain_quiet. intros k Hk. simpl. apply Hq. lia.
Qed.





(** ** A run with one late fragment *)





(** ** Edit failures *)

(** C2. The claim holds of the intermediate edits and fails of the final
    one. With one fragment "Hi", a clock that stands still and a platform
    that fails the third call, which is the final edit, the failure is
    caught by the handler of streaming errors: it is logged as an error
    during streaming and the apology is shown. The same failure on an
    intermediate edit (the fragment arriving 5 seconds after the start) is
    logged as an update error, and the final edit follows. *)
Theorem C2_final_edit_failure_takes_the_apology_path :
  let e := Error "Bad Request" in
  let su : gset Z := {[ 123456789 ]} in
  let final_fails := {| monotonic := still; telegram := fails_at 2 e;
                        completion := [text_chunk "Hi"] |} in
  let intermediate_fails := {| monotonic := readings [0; 5]; telegram := fails_at 2 e;
                               completion := [text_chunk "Hi"] |} in
  trace (final (handle_message final_fails alice (initial su)))
  = opening_events alice ++
    [Call (EditText (Py.lit "Hi")) (Some e);
     Log ERROR "Error during streaming: %s" [AExc e] true;
     Call (EditText APOLOGY) None]
  /\
  trace (final (handle_message intermediate_fails alice (initial su)))
  = opening_events alice ++
    [Call (EditText (Py.lit "Hi")) (Some e);
     Log ERROR "Error updating message: %s" [AExc e] false;
     Call (EditText (Py.lit "Hi")) None].
Proof. split; vm_compute; reflexivity. Qed.


Lemma edits_flush_events text failure evs :
  edits (flush_events text failure ++ evs) = text :: edits evs.
Proof. destruct failure; reflexivity. Qed.

Lemma flushes_edits acc frs evs :
  flushes acc frs evs ->
  forall t, t ∈ edits evs ->
  exists k, (1 <= k <= length frs)%nat /\ t = display (acc ++ concat (take k frs)).
Proof.
  induction 1 as [acc|acc c0 frs evs _ IH|acc c0 frs failure evs _ IH]; intros t Ht.
  - apply elem_of_nil in Ht. destruct Ht.
  - destruct (IH t Ht) as (k & Hk & ->).
    exists (S k). split; [simpl; lia|]. simpl. rewrite app_assoc. reflexivity.
  - rewrite edits_flush_events in Ht. apply elem_of_cons in Ht as [->|Ht].
    + exists 1%nat. split; [simpl; lia|]. simpl. rewrite ?take_0. simpl.
      rewrite app_nil_r. reflexivity.
    + destruct (IH t Ht) as (k & Hk & ->).
      exists (S k). split; [simpl; lia|]. simpl. rewrite app_assoc. reflexivity.
Qed.





(** ** The text of every edit *)

Lemma edits_closing_events ended buf fin apo t :
  t ∈ edits (closing_events ended buf fin apo) -> t = APOLOGY \/ t = display buf.
Proof.
  unfold closing_events. destruct ended as [e|]; [|destruct fin as [e|]]; simpl;
    rewrite ?elem_of_cons, ?elem_of_nil; tauto.
Qed.



(** ** The sanitization *)

(** C4 (amended). The sanitization removes, reading from the left, every
    substring made of an opening angle bracket, any code points other than a
    line feed (none included) and the first closing angle bracket after it;
    where brackets nest, only these lazy matches go. No such substring is
    left in the result. Leading and trailing white space is then trimmed. *)
Theorem C4_sanitize_removes_lazy_tags buf :
  (forall out, tags_removed buf out <-> out = Re.sub buf)
  /\ (forall i, no_tag_at (drop i (Re.sub buf)))
  /\ (exists l r,
        Re.sub buf = l ++ sanitize buf ++ r
        /\ all_space l /\ all_space r /\ trimmed (sanitize buf)).
Proof.
  split; [|split].
  - intros out. split; [apply removed_is_sub|intros ->; apply sub_removes].
  - intros i. apply match_at_none, sub_no_match.
  - apply strip_spec.
Qed.

Lemma C4_sanitize_removes_lazy_tags_witness :
  let buf := Py.lit " <a<b>c> d" in
  tags_removed buf (Py.lit " c> d") /\ sanitize buf = Py.lit "c> d".
Proof.
  intros buf. split; [|reflexivity].
  apply (proj1 (C4_sanitize_removes_lazy_tags buf)). reflexivity.
Defined.

(** C4 as stated fails: a line feed between the brackets keeps them in
    place, where the specification's pattern would take them out. *)
Lemma C4_counterexample :
  let buf := Py.lit "x<a" ++ [Re.LF] ++ Py.lit "b>y" in
  Spec.sanitize_any buf = Py.lit "xy"
  /\ sanitize buf = buf
  /\ sanitize buf <> Spec.sanitize_any buf.
Proof.
  intros buf. split; [reflexivity|]. split; [reflexivity|].
  vm_compute. discriminate.
Qed.

(** * Further properties *)

(** ** The set of started users *)

Lemma keeps_ret {A} (a : A) : keeps_started (ret a).
Proof. intros w. reflexivity. Qed.

Lemma keeps_raise {A} e : keeps_started (@raise A e).
Proof. intros w. reflexivity. Qed.

Lemma keeps_emit ev : keeps_started (emit ev).
Proof. intros w. reflexivity. Qed.

Lemma keeps_time_monotonic E : keeps_started (time_monotonic E).
Proof. intros w. reflexivity. Qed.

Lemma keeps_await_call E c : keeps_started (await_call E c).
Proof. intros w. unfold await_call. destruct (telegram E (calls_made w)); reflexivity. Qed.

Lemma keeps_get_started_users : keeps_started get_started_users.
Proof. intros w. reflexivity. Qed.

Lemma keeps_bind {A B} (m : M A) (k : A -> M B) :
  keeps_started m -> (forall a, keeps_started (k a)) -> keeps_started (m ≫= k).
Proof.
  intros Hm Hk w. rewrite bind_run. specialize (Hm w).
  destruct (m w) as [[a|e] w']; simpl in *; [|exact Hm].
  rewrite (Hk a w'). exact Hm.
Qed.

Lemma keeps_try_except {A} (body : M A) handler :
  keeps_started body -> (forall e, keeps_started (handler e)) ->
  keeps_started (try_except body handler).
Proof.
  intros Hb Hh w. rewrite try_except_run. specialize (Hb w).
  destruct (body w) as [[a|e] w']; simpl in *; [exact Hb|].
  rewrite (Hh e w'). exact Hb.
Qed.

Lemma keeps_drain E s : forall acc last, keeps_started (drain E s acc last).
Proof.
  induction s as [|e|c rest IH]; intros acc last.
  - apply keeps_ret.
  - apply keeps_raise.
  - simpl drain. apply keeps_bind; [apply keeps_time_monotonic|]. intros now.
    destruct (Qle_bool 4 (now - last)); [|apply IH].
    apply keeps_bind; [|intros _; apply IH].
    apply keeps_try_except; [apply keeps_await_call|].
    intros e. apply keeps_emit.
Qed.

Lemma keeps_handle_message E u : keeps_started (handle_message E u).
Proof.
  unfold handle_message.
  apply keeps_bind; [apply keeps_emit|]. intros _.
  destruct (negb (bool_decide (from_user_id u ∈ AUTHORIZED_USERS))); [apply keeps_emit|].
  apply keeps_bind; [apply keeps_get_started_users|]. intros started.
  destruct (negb (bool_decide (from_user_id u ∈ started))); [apply keeps_await_call|].
  apply keeps_bind; [apply keeps_await_call|]. intros _.
  apply keeps_bind; [apply keeps_await_call|]. intros _.
  apply keeps_bind; [apply keeps_time_monotonic|]. intros last.
  apply keeps_try_except.
  - apply keeps_bind.
    + unfold stream_fireworks_api. apply keeps_bind; [apply keeps_emit|].
      intros _. apply keeps_ret.
    + intros chunks. apply keeps_bind; [apply keeps_drain|].
      intros acc. apply keeps_await_call.
  - intros e. apply keeps_bind; [apply keeps_emit|]. intros _. apply keeps_await_call.
Qed.

(** X1. [handle_message] never changes the set of started users: whatever
    the sender, the platform, the clock and the completion service do, and
    from whatever world it is entered, it ends with the set it found. *)
Theorem X1_handle_message_keeps_started_users E u w :
  started_users (final (handle_message E u w)) = started_users w.
Proof. apply keeps_handle_message. Qed.

Lemma start_authorized E u w :
  from_user_id u ∈ AUTHORIZED_USERS ->
  start E u w
  = (match telegram E (calls_made w) with Some e => Raise e | None => Ok tt end,
     {| started_users := {[from_user_id u]} ∪ started_users w;
        clock_reads := clock_reads w;
        calls_made := S (calls_made w);
        trace := trace w ++
                 [Log INFO "User %s used /start" [AInt (from_user_id u)] false;
                  Call (ReplyText HELLO) (telegram E (calls_made w))] |}).
Proof.
  intros Hauth. unfold start.
  rewrite (bool_decide_eq_true_2 _ Hauth). cbn [negb].
  unfold logging_info, reply_text, started_users_add.
  rewrite bind_run, emit_step, bind_run. cbn iota beta.
  rewrite await_call_step. unfold step. simpl.
  rewrite <- app_assoc. reflexivity.
Qed.

Lemma start_unauthorized_any E u w :
  from_user_id u ∉ AUTHORIZED_USERS ->
  started_users (final (start E u w)) = started_users w.
Proof.
  intros Hauth. unfold start.
  rewrite (bool_decide_eq_false_2 _ Hauth). cbn [negb].
  unfold logging_info, logging_warning, reply_text. run. reflexivity.
Qed.

(** X2. After [start], from any world, the started users are those there
    were before, and the sender when the sender is authorized: nobody is ever
    removed, nobody but the sender is added, and an unauthorized sender is not
    added. *)
Theorem X2_start_adds_the_authorized_sender_only E u w x :
  x ∈ started_users (final (start E u w))
  <-> x ∈ started_users w
      \/ (x = from_user_id u /\ from_user_id u ∈ AUTHORIZED_USERS).
Proof.
  destruct (decide (from_user_id u ∈ AUTHORIZED_USERS)) as [Hauth|Hauth].
  - rewrite (start_authorized E u w Hauth). unfold final. simpl.
    rewrite elem_of_union, elem_of_singleton. tauto.
  - rewrite (start_unauthorized_any E u w Hauth). tauto.
Qed.

(** X3. The started users stay within the authorization list: if every
    started user is authorized before [start] or [handle_message] runs, every
    started user is authorized after it. *)
Theorem X3_started_users_stay_authorized E u w :
  (forall x, x ∈ started_users w -> x ∈ AUTHORIZED_USERS) ->
  (forall x, x ∈ started_users (final (start E u w)) -> x ∈ AUTHORIZED_USERS)
  /\ (forall x, x ∈ started_users (final (handle_message E u w)) ->
                 x ∈ AUTHORIZED_USERS).
Proof.
  intros Hinv. split; intros x Hx.
  - destruct (decide (from_user_id u ∈ AUTHORIZED_USERS)) as [Hauth|Hauth].
    + rewrite (start_authorized E u w Hauth) in Hx. unfold final in Hx. simpl in Hx.
      apply elem_of_union in Hx as [Hx|Hx]; [|exact (Hinv x Hx)].
      apply elem_of_singleton in Hx. subst x. exact Hauth.
    + rewrite (start_unauthorized_any E u w Hauth) in Hx. exact (Hinv x Hx).
  - unfold final in Hx. rewrite (keeps_handle_message E u w) in Hx. exact (Hinv x Hx).
Qed.

Lemma X3_started_users_stay_authorized_witness :
  let E := {| monotonic := still; telegram := never_fails; completion := [] |} in
  (forall x, x ∈ started_users (initial ∅) -> x ∈ AUTHORIZED_USERS) /\
  (forall x, x ∈ started_users (final (start E alice (initial ∅))) ->
             x ∈ AUTHORIZED_USERS).
Proof.
  intros E.
  assert (H0 : forall x, x ∈ started_users (initial ∅) -> x ∈ AUTHORIZED_USERS)
    by (intros x Hx; apply not_elem_of_empty in Hx; destruct Hx).
  split; [exact H0|].
  exact (proj1 (X3_started_users_stay_authorized E alice (initial ∅) H0)).
Defined.

(** X4. When an authorized sender sends the init command, the sender is
    added to the started users before the greeting is sent: the greeting is
    the only platform call, no request goes to the completion service, the
    handler raises exactly when the greeting fails, and the sender is started
    in either case. *)
Theorem X4_start_registers_before_greeting E u su :
  from_user_id u ∈ AUTHORIZED_USERS ->
  started_users (final (start E u (initial su))) = {[from_user_id u]} ∪ su
  /\ calls (trace (final (start E u (initial su)))) = [ReplyText HELLO]
  /\ creates (trace (final (start E u (initial su)))) = []
  /\ (forall e, outcome (start E u (initial su)) = Raise e <-> telegram E 0 = Some e).
Proof.
  intros Hauth. rewrite (start_authorized E u (initial su) Hauth).
  unfold final, outcome. simpl. repeat split; try reflexivity.
  - destruct (telegram E 0); intros H; inversion H; reflexivity.
  - intros ->. reflexivity.
Qed.

Lemma X4_start_registers_before_greeting_witness :
  let e := Error "Forbidden" in
  let E := {| monotonic := still; telegram := fails_at 0 e; completion := [] |} in
  (from_user_id alice ∈ AUTHORIZED_USERS) /\
  outcome (start E alice (initial ∅)) = Raise e /\
  started_users (final (start E alice (initial ∅))) = {[ 123456789 ]} ∪ ∅.
Proof.
  intros e E.
  pose proof (X4_start_registers_before_greeting E alice ∅ alice_authorized)
    as (Hs & _ & _ & Hr).
  split; [exact alice_authorized|]. split; [|exact Hs].
  apply Hr. reflexivity.
Defined.

Lemma flushes_calls acc frs evs :
  flushes acc frs evs ->
  calls evs = map EditText (edits evs) /\ creates evs = []
  /\ (length (edits evs) <= length frs)%nat.
Proof.
  induction 1 as [acc|acc c0 frs evs _ (IHc & IHr & IHl)
                 |acc c0 frs failure evs _ (IHc & IHr & IHl)].
  - repeat split; simpl; lia.
  - repeat split; try assumption. simpl. lia.
  - rewrite calls_app, creates_app, edits_flush_events, calls_flush_events, IHc, IHr.
    repeat split; simpl; try lia.
    destruct failure; reflexivity.
Qed.

Lemma closing_calls ended buf fin apo :
  calls (closing_events ended buf fin apo)
  = map EditText (edits (closing_events ended buf fin apo))
  /\ creates (closing_events ended buf fin apo) = []
  /\ edits (closing_events ended buf fin apo) <> [].
Proof.
  unfold closing_events. destruct ended as [e|]; [|destruct fin as [e|]];
    simpl; repeat split; discriminate.
Qed.

(** The calls and requests of the streaming path. *)
Lemma handle_message_streams_calls E u su :
  from_user_id u ∈ AUTHORIZED_USERS -> from_user_id u ∈ su ->
  telegram E 0 = None -> telegram E 1 = None ->
  calls (trace (final (handle_message E u (initial su))))
  = ReplyText PROCESSING
    :: SendChatAction (effective_chat_id u) (Py.lit "typing")
    :: map EditText (edits (trace (final (handle_message E u (initial su)))))
  /\ creates (trace (final (handle_message E u (initial su)))) = [message_text u]
  /\ edits (trace (final (handle_message E u (initial su)))) <> [].
Proof.
  intros Hauth Hstarted H0 H1.
  destruct (handle_message_streams E u su Hauth Hstarted H0 H1)
    as (evs & Hfl & _ & Htrace & _).
  destruct (flushes_calls _ _ _ Hfl) as (Hc & Hr & _).
  match type of Htrace with _ = _ ++ _ ++ closing_events ?a ?b ?c ?d =>
    destruct (closing_calls a b c d) as (Hcc & Hcr & Hce);
    set (cl := closing_events a b c d) in * end.
  rewrite Htrace, !calls_app, !creates_app, !edits_app, Hc, Hr, Hcc, Hcr.
  simpl. rewrite map_app. repeat split.
  intros Hnil. apply app_eq_nil in Hnil as [_ Hnil]. exact (Hce Hnil).
Qed.

(** X5. The init command opens the way: once an authorized sender has sent
    it, whether or not the greeting could be delivered, a text message of
    that sender is answered with the placeholder first, and when the
    placeholder and the typing indicator go out, exactly one request, with
    the text of the message, is sent to the completion service. *)
Theorem X5_message_after_start_reaches_the_stream E1 E2 u su :
  from_user_id u ∈ AUTHORIZED_USERS ->
  let started := started_users (final (start E1 u (initial su))) in
  head (calls (trace (final (handle_message E2 u (initial started)))))
  = Some (ReplyText PROCESSING)
  /\ (telegram E2 0 = None -> telegram E2 1 = None ->
      creates (trace (final (handle_message E2 u (initial started))))
      = [message_text u]).
Proof.
  intros Hauth started.
  assert (Hstarted : from_user_id u ∈ started).
  { subst started. rewrite (start_authorized E1 u (initial su) Hauth).
    unfold final. simpl. apply elem_of_union_l, elem_of_singleton. reflexivity. }
  split.
  - destruct (telegram E2 0) as [e|] eqn:H0;
      [rewrite (handle_message_placeholder_fails E2 u _ e Hauth Hstarted H0);
       reflexivity|].
    destruct (telegram E2 1) as [e|] eqn:H1;
      [rewrite (handle_message_typing_fails E2 u _ e Hauth Hstarted H0 H1);
       reflexivity|].
    destruct (handle_message_streams_calls E2 u _ Hauth Hstarted H0 H1) as (-> & _).
    reflexivity.
  - intros H0 H1.
    exact (proj1 (proj2 (handle_message_streams_calls E2 u _ Hauth Hstarted H0 H1))).
Qed.

Lemma X5_message_after_start_reaches_the_stream_witness :
  let E1 := {| monotonic := still; telegram := fails_at 0 (Error "Forbidden");
               completion := [] |} in
  let E2 := {| monotonic := still; telegram := never_fails;
               completion := [text_chunk "Hi"] |} in
  (from_user_id alice ∈ AUTHORIZED_USERS) /\
  creates (trace (final (handle_message E2 alice
             (initial (started_users (final (start E1 alice (initial ∅)))))))) 
  = [Py.lit "hello"].
Proof.
  intros E1 E2. split; [exact alice_authorized|].
  exact (proj2 (X5_message_after_start_reaches_the_stream E1 E2 alice ∅ alice_authorized)
           eq_refl eq_refl).
Defined.


Lemma start_never_fails E u su :
  (forall k, telegram E k = None) -> outcome (start E u (initial su)) = Ok tt.
Proof.
  intros Hok.
  destruct (decide (from_user_id u ∈ AUTHORIZED_USERS)) as [Hauth|Hauth].
  - rewrite (start_authorized E u (initial su) Hauth). simpl. rewrite Hok. reflexivity.
  - rewrite (start_unauthorized E u su Hauth). rewrite Hok. reflexivity.
Qed.

(** X7. With a platform that accepts every call, neither handler raises,
    whatever the completion service does: an upstream failure ends in the
    apology, not in an exception. *)
Theorem X7_handlers_return_when_the_platform_accepts E u su :
  (forall k, telegram E k = None) ->
  outcome (start E u (initial su)) = Ok tt
  /\ outcome (handle_message E u (initial su)) = Ok tt.
Proof.
  intros Hok. split; [exact (start_never_fails E u su Hok)|].
  destruct (decide (from_user_id u ∈ AUTHORIZED_USERS)) as [Hauth|Hauth];
    [|rewrite (handle_message_unauthorized E u su Hauth); reflexivity].
  destruct (decide (from_user_id u ∈ su)) as [Hstarted|Hstarted];
    [|rewrite (handle_message_not_started E u su Hauth Hstarted), Hok; reflexivity].
  destruct (handle_message_streams E u su Hauth Hstarted (Hok 0%nat) (Hok 1%nat))
    as (evs & _ & Hout & _).
  rewrite Hout, !Hok. unfold closing_outcome.
  destruct (ending (generator (completion E))); reflexivity.
Qed.

Lemma X7_handlers_return_when_the_platform_accepts_witness :
  let E := {| monotonic := still; telegram := never_fails;
              completion := [text_chunk "Hi"; Fault (Error "connection reset")] |} in
  (forall k, telegram E k = None) /\
  outcome (handle_message E alice (initial {[ 123456789 ]})) = Ok tt.
Proof.
  intros E.
  assert (Hok : forall k, telegram E k = None) by (intros k; reflexivity).
  split; [exact Hok|].
  exact (proj2 (X7_handlers_return_when_the_platform_accepts E alice _ Hok)).
Defined.

(** ** The rate of the edits *)







(** ** What the edits show *)

Lemma display_bound buf : Py.len (display buf) <= MAX_MESSAGE_LENGTH.
Proof.
  destruct (Z_le_gt_dec (Py.len (sanitize buf)) MAX_MESSAGE_LENGTH) as [H|H].
  - rewrite display_short; assumption.
  - destruct (display_long buf H) as (_ & _ & ->). lia.
Qed.

(** The text of an edit is the apology or the snapshot of the buffer after
    some number of fragments. *)
Lemma handle_message_edits E u su t :
  t ∈ edits (trace (final (handle_message E u (initial su)))) ->
  t = APOLOGY \/
  exists k, t = display (concat (take k (fragments (generator (completion E))))).
Proof.
  intros Ht.
  destruct (decide (from_user_id u ∈ AUTHORIZED_USERS)) as [Hauth|Hauth];
    [|rewrite (handle_message_unauthorized E u su Hauth) in Ht;
      apply elem_of_nil in Ht; destruct Ht].
  destruct (decide (from_user_id u ∈ su)) as [Hstarted|Hstarted];
    [|rewrite (handle_message_not_started E u su Hauth Hstarted) in Ht;
      apply elem_of_nil in Ht; destruct Ht].
  destruct (telegram E 0) as [e|] eqn:H0;
    [rewrite (handle_message_placeholder_fails E u su e Hauth Hstarted H0) in Ht;
     apply elem_of_nil in Ht; destruct Ht|].
  destruct (telegram E 1) as [e|] eqn:H1;
    [rewrite (handle_message_typing_fails E u su e Hauth Hstarted H0 H1) in Ht;
     apply elem_of_nil in Ht; destruct Ht|].
  destruct (handle_message_streams E u su Hauth Hstarted H0 H1)
    as (evs & Hfl & _ & Htrace & _).
  rewrite Htrace, !edits_app in Ht. simpl in Ht.
  apply elem_of_app in Ht as [Ht|Ht].
  - destruct (flushes_edits _ _ _ Hfl t Ht) as (k & _ & Hk). right. exists k. exact Hk.
  - apply edits_closing_events in Ht as [Ht|Ht]; [left; exact Ht|].
    right. exists (length (fragments (generator (completion E)))).
    rewrite firstn_all. exact Ht.
Qed.

(** X9. No edit exceeds the platform's maximum: the text of every edit of
    the placeholder, snapshot or apology, has at most 4096 code points. *)
Theorem X9_no_edit_exceeds_the_maximum_length E u su t :
  t ∈ edits (trace (final (handle_message E u (initial su)))) ->
  Py.len t <= MAX_MESSAGE_LENGTH.
Proof.
  intros Ht. destruct (handle_message_edits E u su t Ht) as [->|(k & ->)].
  - vm_compute. discriminate.
  - apply display_bound.
Qed.

Lemma X9_no_edit_exceeds_the_maximum_length_witness :
  let E := {| monotonic := still; telegram := never_fails;
              completion := [Chunk {| choices := [Some (repeat 120%N 4200)] |}] |} in
  let tr := trace (final (handle_message E alice (initial {[ 123456789 ]}))) in
  (repeat 120%N 4096 ∈ edits tr) /\ Py.len (repeat 120%N 4096) <= MAX_MESSAGE_LENGTH.
Proof.
  intros E tr.
  assert (He : edits tr = [repeat 120%N 4096]) by (vm_compute; reflexivity).
  assert (Ht : repeat 120%N 4096 ∈ edits tr) by (rewrite He; apply list_elem_of_here).
  split; [exact Ht|].
  exact (X9_no_edit_exceeds_the_maximum_length E alice {[ 123456789 ]} _ Ht).
Defined.

(** The streaming path when the stream raises. *)
Lemma handle_message_upstream_error E u su e :
  from_user_id u ∈ AUTHORIZED_USERS -> from_user_id u ∈ su ->
  telegram E 0 = None -> telegram E 1 = None ->
  ending (generator (completion E)) = Some e ->
  exists evs,
    flushes [] (fragments (generator (completion E))) evs
    /\ trace (final (handle_message E u (initial su)))
       = opening_events u ++ evs
         ++ [Log ERROR "Error during streaming: %s" [AExc e] true;
             Call (EditText APOLOGY) (telegram E (2 + length (calls evs)))].
Proof.
  intros Hauth Hstarted H0 H1 Hend.
  destruct (handle_message_streams E u su Hauth Hstarted H0 H1)
    as (evs & Hfl & _ & Htrace & _).
  exists evs. split; [exact Hfl|].
  rewrite Hend in Htrace. exact Htrace.
Qed.

(** X10. When pulling a fragment raises, at any point of the stream and
    after any number of intermediate edits, the error is logged and the edits
    of the request are the snapshots already shown followed by exactly one
    apology: the placeholder ends on the apology, which replaces whatever had
    been shown. *)
Theorem X10_upstream_error_ends_on_the_apology E u su e :
  from_user_id u ∈ AUTHORIZED_USERS -> from_user_id u ∈ su ->
  telegram E 0 = None -> telegram E 1 = None ->
  ending (generator (completion E)) = Some e ->
  (exists shown,
     edits (trace (final (handle_message E u (initial su)))) = shown ++ [APOLOGY]
     /\ (length shown <= length (fragments (generator (completion E))))%nat
     /\ forall t, t ∈ shown ->
          exists k, (1 <= k <= length (fragments (generator (completion E))))%nat /\
                    t = display (concat (take k (fragments (generator (completion E))))))
  /\ Log ERROR "Error during streaming: %s" [AExc e] true
     ∈ trace (final (handle_message E u (initial su))).
Proof.
  intros Hauth Hstarted H0 H1 Hend.
  destruct (handle_message_upstream_error E u su e Hauth Hstarted H0 H1 Hend)
    as (evs & Hfl & ->).
  split.
  - exists (edits evs). rewrite !edits_app. split; [reflexivity|].
    split; [exact (proj2 (proj2 (flushes_calls _ _ _ Hfl)))|].
    intros t Ht. exact (flushes_edits _ _ _ Hfl t Ht).
  - rewrite !elem_of_app. right. right. apply list_elem_of_here.
Qed.

Lemma X10_upstream_error_ends_on_the_apology_witness :
  let e := Error "connection reset" in
  let E := {| monotonic := readings [0; 5]; telegram := never_fails;
              completion := [text_chunk "partial"; Fault e] |} in
  let su : gset Z := {[ 123456789 ]} in
  (from_user_id alice ∈ su) /\
  ending (generator (completion E)) = Some e /\
  edits (trace (final (handle_message E alice (initial su))))
  = [Py.lit "partial"; APOLOGY] /\
  Log ERROR "Error during streaming: %s" [AExc e] true
  ∈ trace (final (handle_message E alice (initial su))).
Proof.
  intros e E su.
  assert (Hs : from_user_id alice ∈ su) by (apply elem_of_singleton; reflexivity).
  split; [exact Hs|]. split; [reflexivity|]. split; [vm_compute; reflexivity|].
  exact (proj2 (X10_upstream_error_ends_on_the_apology E alice su e
                  alice_authorized Hs eq_refl eq_refl eq_refl)).
Defined.

(** X11. A stream that ends without a fragment (an empty response, or
    chunks whose contents are all [None] or empty) still gets its final edit:
    after the placeholder and the typing indicator the handler edits the
    placeholder to the empty text, and that is the only edit when the platform
    accepts it. *)
Theorem X11_empty_stream_edits_to_the_empty_text E u su :
  from_user_id u ∈ AUTHORIZED_USERS -> from_user_id u ∈ su ->
  telegram E 0 = None -> telegram E 1 = None ->
  fragments (generator (completion E)) = [] ->
  ending (generator (completion E)) = None ->
  head (edits (trace (final (handle_message E u (initial su))))) = Some []
  /\ (telegram E 2 = None ->
      calls (trace (final (handle_message E u (initial su))))
      = [ReplyText PROCESSING;
         SendChatAction (effective_chat_id u) (Py.lit "typing");
         EditText []]
      /\ outcome (handle_message E u (initial su)) = Ok tt).
Proof.
  intros Hauth Hstarted H0 H1 Hfr Hend.
  destruct (handle_message_quiet E u su Hauth Hstarted H0 H1) as (Hout & Htrace & _).
  { intros k Hk. rewrite Hfr in Hk. simpl in Hk. lia. }
  rewrite Hend in Hout, Htrace. rewrite Hfr in Htrace. rewrite Htrace.
  split; [reflexivity|].
  intros H2. rewrite H2 in Hout |- *. split; [reflexivity|exact Hout].
Qed.

Lemma X11_empty_stream_edits_to_the_empty_text_witness :
  let E := {| monotonic := still; telegram := never_fails;
              completion := [Chunk {| choices := [None] |}; text_chunk ""] |} in
  let su : gset Z := {[ 123456789 ]} in
  (from_user_id alice ∈ su) /\
  fragments (generator (completion E)) = [] /\
  calls (trace (final (handle_message E alice (initial su))))
  = [ReplyText PROCESSING; SendChatAction 7 (Py.lit "typing"); EditText []].
Proof.
  intros E su.
  assert (Hs : from_user_id alice ∈ su) by (apply elem_of_singleton; reflexivity).
  split; [exact Hs|]. split; [reflexivity|].
  exact (proj1 (proj2 (X11_empty_stream_edits_to_the_empty_text E alice su
                         alice_authorized Hs eq_refl eq_refl eq_refl eq_refl) eq_refl)).
Defined.

(** ** Where the adapter stops *)

Lemma generator_app_chunks cs rest :
  Forall (fun c => has_choice c = true) cs ->
  fragments (generator (map Chunk cs ++ rest))
  = nonempty_contents cs ++ fragments (generator rest)
  /\ ending (generator (map Chunk cs ++ rest)) = ending (generator rest).
Proof.
  induction 1 as [|c cs Hc _ [IHf IHe]]; [split; reflexivity|].
  unfold nonempty_contents in *. simpl. unfold has_choice, delta_content in *.
  destruct (choices c) as [|[content|] ?]; [discriminate| |]; simpl.
  - destruct (Py.truthy content); simpl; [rewrite IHf|]; auto.
  - auto.
Qed.

(** X12. The adapter reads nothing after a failed pull: when the response
    iterator raises after some chunks, the adapter yields the non-empty
    contents of those chunks, then raises that exception, and what the
    response would have held after it has no effect on the run of the
    handler. *)
Theorem X12_nothing_is_read_after_a_failed_pull cs e rest1 rest2 clock platform u w :
  Forall (fun c => has_choice c = true) cs ->
  let E1 := {| monotonic := clock; telegram := platform;
               completion := map Chunk cs ++ Fault e :: rest1 |} in
  let E2 := {| monotonic := clock; telegram := platform;
               completion := map Chunk cs ++ Fault e :: rest2 |} in
  fragments (generator (completion E1)) = nonempty_contents cs
  /\ ending (generator (completion E1)) = Some e
  /\ handle_message E1 u w = handle_message E2 u w.
Proof.
  intros Hcs E1 E2.
  destruct (generator_app_chunks cs (Fault e :: rest1) Hcs) as [Hf He].
  split; [simpl completion; rewrite Hf; apply app_nil_r|].
  split; [simpl completion; rewrite He; reflexivity|].
  assert (Hgen : generator (completion E1) = generator (completion E2)).
  { simpl completion. clear.
    induction cs as [|c cs IH]; simpl; [reflexivity|].
    destruct (choices c) as [|[content|] ?]; try reflexivity; try exact IH.
    destruct (Py.truthy content); [rewrite IH|]; auto. }
  unfold handle_message, stream_fireworks_api. rewrite Hgen. reflexivity.
Qed.

Lemma X12_nothing_is_read_after_a_failed_pull_witness :
  let cs := [ {| choices := [Some (Py.lit "Hi")] |}; {| choices := [None] |} ] in
  let e := Error "connection reset" in
  Forall (fun c => has_choice c = true) cs /\
  fragments (generator (map Chunk cs ++ Fault e :: [text_chunk "lost"])) = [Py.lit "Hi"].
Proof.
  intros cs e.
  assert (Hcs : Forall (fun c => has_choice c = true) cs) by (repeat constructor).
  split; [exact Hcs|].
  exact (proj1 (X12_nothing_is_read_after_a_failed_pull cs e [text_chunk "lost"] []
                  still never_fails alice (initial ∅) Hcs)).
Defined.

(** X13. A chunk without any choice fails the request: reading its first
    choice raises [IndexError], the adapter yields the non-empty contents of
    the chunks before it and stops there, and the handler logs the error and
    ends the edits of the placeholder on the apology. *)
Theorem X13_chunk_without_choices_fails_the_request E u su cs c rest :
  from_user_id u ∈ AUTHORIZED_USERS -> from_user_id u ∈ su ->
  telegram E 0 = None -> telegram E 1 = None ->
  completion E = map Chunk cs ++ Chunk c :: rest ->
  Forall (fun c => has_choice c = true) cs ->
  choices c = [] ->
  fragments (generator (completion E)) = nonempty_contents cs
  /\ ending (generator (completion E)) = Some IndexError
  /\ last (edits (trace (final (handle_message E u (initial su))))) = Some APOLOGY
  /\ Log ERROR "Error during streaming: %s" [AExc IndexError] true
     ∈ trace (final (handle_message E u (initial su))).
Proof.
  intros Hauth Hstarted H0 H1 Hresp Hcs Hc.
  destruct (generator_app_chunks cs (Chunk c :: rest) Hcs) as [Hf He].
  simpl in Hf, He. rewrite Hc in Hf, He. simpl in Hf, He. rewrite app_nil_r in Hf.
  rewrite <- Hresp in Hf, He.
  split; [exact Hf|]. split; [exact He|].
  destruct (handle_message_upstream_error E u su IndexError Hauth Hstarted H0 H1 He)
    as (evs & _ & ->).
  split.
  - rewrite !edits_app. simpl. rewrite last_snoc. reflexivity.
  - rewrite !elem_of_app. right. right. apply list_elem_of_here.
Qed.

Lemma X13_chunk_without_choices_fails_the_request_witness :
  let E := {| monotonic := still; telegram := never_fails;
              completion := map Chunk [ {| choices := [Some (Py.lit "Hi")] |} ]
                            ++ Chunk {| choices := [] |} :: [text_chunk "!"] |} in
  let su : gset Z := {[ 123456789 ]} in
  (from_user_id alice ∈ su) /\
  edits (trace (final (handle_message E alice (initial su)))) = [APOLOGY] /\
  last (edits (trace (final (handle_message E alice (initial su))))) = Some APOLOGY.
Proof.
  intros E su.
  assert (Hs : from_user_id alice ∈ su) by (apply elem_of_singleton; reflexivity).
  split; [exact Hs|]. split; [vm_compute; reflexivity|].
  refine (proj1 (proj2 (proj2
    (X13_chunk_without_choices_fails_the_request E alice su
       [ {| choices := [Some (Py.lit "Hi")] |} ] {| choices := [] |} [text_chunk "!"]
       alice_authorized Hs eq_refl eq_refl eq_refl _ eq_refl)))).
  repeat constructor.
Defined.

(** ** More on the sanitization *)

Lemma sub_fixed t : (forall i, Re.match_at (drop i t) = None) -> Re.sub t = t.
Proof.
  induction t as [|c t IH]; intros H; [reflexivity|].
  rewrite sub_keep by exact (H 0%nat).
  rewrite IH; [reflexivity|]. intros i. exact (H (S i)).
Qed.

Lemma lazy_tail_app_none a r : Re.lazy_tail (a ++ r) = None -> Re.lazy_tail a = None.
Proof.
  induction a as [|c a IH]; intros H; [reflexivity|].
  simpl in *. destruct (c =? Re.GT)%N; [discriminate|].
  destruct (Re.dot c); [|reflexivity].
  destruct (Re.lazy_tail (a ++ r)); [discriminate|]. rewrite IH; reflexivity.
Qed.

Lemma match_at_app_none a r : Re.match_at (a ++ r) = None -> Re.match_at a = None.
Proof.
  destruct a as [|c a]; intros H; [reflexivity|].
  simpl in *. destruct (c =? Re.LT)%N; [|reflexivity].
  destruct (Re.lazy_tail (a ++ r)) eqn:Ht; [discriminate|].
  rewrite (lazy_tail_app_none a r Ht). reflexivity.
Qed.

Lemma tag_free_middle l t r :
  (forall i, Re.match_at (drop i (l ++ t ++ r)) = None) ->
  forall i, Re.match_at (drop i t) = None.
Proof.
  intros H i. specialize (H (length l + i)%nat).
  rewrite drop_app_add in H.
  destruct (le_lt_dec i (length t)) as [Hi|Hi].
  - rewrite drop_app_le in H by exact Hi. exact (match_at_app_none _ _ H).
  - rewrite drop_ge by lia. reflexivity.
Qed.

Lemma last_head_rev (t : pystr) : last t = head (rev t).
Proof.
  induction t as [|c t _] using rev_ind; [reflexivity|].
  rewrite last_snoc, rev_unit. reflexivity.
Qed.

Lemma lstrip_fixed t :
  match t with c :: _ => Py.isspace c = false | [] => True end -> Py.lstrip t = t.
Proof. destruct t as [|c t]; [reflexivity|]. simpl. intros ->. reflexivity. Qed.

Lemma strip_trimmed t : trimmed t -> Py.strip t = t.
Proof.
  intros [Hh Hl]. unfold Py.strip, Py.rstrip.
  rewrite (lstrip_fixed t Hh).
  rewrite lstrip_fixed; [apply rev_involutive|].
  rewrite last_head_rev in Hl. destruct (rev t); exact Hl.
Qed.

Lemma sanitize_tag_free s i : Re.match_at (drop i (sanitize s)) = None.
Proof.
  destruct (strip_spec (Re.sub s)) as (l & r & Hs & _).
  apply (tag_free_middle l (sanitize s) r). unfold sanitize at 1.
  intros j. unfold sanitize. rewrite <- Hs. apply sub_no_match.
Qed.

(** X14. Sanitizing is idempotent: a sanitized text holds no tag and no
    surrounding white space, so sanitizing it again changes nothing. *)
Theorem X14_sanitize_is_idempotent buf :
  sanitize (sanitize buf) = sanitize buf.
Proof.
  unfold sanitize at 1.
  rewrite (sub_fixed (sanitize buf) (sanitize_tag_free buf)).
  apply strip_trimmed.
  destruct (strip_spec (Re.sub buf)) as (_ & _ & _ & _ & _ & Ht). exact Ht.
Qed.

Lemma sub_from_sublist n s : Re.sub_from n s `sublist_of` s.
Proof.
  revert n. induction s as [|c s IH]; intros n; [constructor|].
  simpl. destruct n as [|n]; [|apply sublist_cons, IH].
  destruct (c =? Re.LT)%N; simpl; [|apply sublist_skip, IH].
  destruct (Re.lazy_tail s); simpl; [apply sublist_cons, IH|apply sublist_skip, IH].
Qed.

Lemma strip_sublist s : Py.strip s `sublist_of` s.
Proof.
  destruct (strip_spec s) as (l & r & Hs & _).
  rewrite Hs at 2. apply sublist_inserts_l, sublist_inserts_r. reflexivity.
Qed.

Lemma sanitize_sublist buf : sanitize buf `sublist_of` buf.
Proof.
  unfold sanitize. transitivity (Re.sub buf); [apply strip_sublist|].
  apply sub_from_sublist.
Qed.

Lemma display_sublist buf : display buf `sublist_of` buf.
Proof.
  unfold display, Py.slice_from.
  destruct (Py.len (sanitize buf) >? MAX_MESSAGE_LENGTH); [|apply sanitize_sublist].
  etransitivity; [apply sublist_drop|apply sanitize_sublist].
Qed.

(** X15. The snapshot only deletes: the text of every edit that is not the
    apology is a subsequence of the concatenation of the fragments received,
    so every code point shown was produced by the completion service, in the
    order it came. *)
Theorem X15_edits_show_only_what_was_received E u su t :
  t ∈ edits (trace (final (handle_message E u (initial su)))) ->
  t = APOLOGY \/
  t `sublist_of` concat (fragments (generator (completion E))).
Proof.
  intros Ht. destruct (handle_message_edits E u su t Ht) as [->|(k & ->)];
    [left; reflexivity|right].
  etransitivity; [apply display_sublist|].
  rewrite <- (take_drop k (fragments (generator (completion E)))) at 2.
  rewrite concat_app. apply sublist_inserts_r. reflexivity.
Qed.

Lemma X15_edits_show_only_what_was_received_witness :
  let E := {| monotonic := still; telegram := never_fails;
              completion := [text_chunk "<think>"; text_chunk " Hi "] |} in
  let tr := trace (final (handle_message E alice (initial {[ 123456789 ]}))) in
  (Py.lit "Hi" ∈ edits tr) /\
  (Py.lit "Hi" = APOLOGY \/ Py.lit "Hi" `sublist_of` Py.lit "<think> Hi ").
Proof.
  intros E tr.
  assert (He : edits tr = [Py.lit "Hi"]) by (vm_compute; reflexivity).
  assert (Ht : Py.lit "Hi" ∈ edits tr) by (rewrite He; apply list_elem_of_here).
  split; [exact Ht|].
  exact (X15_edits_show_only_what_was_received E alice {[ 123456789 ]} _ Ht).
Defined.

(** X16. The buffers shown as they are: the snapshot of a buffer is the
    buffer itself exactly when the buffer holds no tag, neither starts nor
    ends with white space, and has at most 4096 code points. *)
Theorem X16_buffers_shown_unchanged buf :
  display buf = buf
  <-> (forall i, no_tag_at (drop i buf))
      /\ trimmed buf
      /\ Py.len buf <= MAX_MESSAGE_LENGTH.
Proof.
  split.
  - intros Hfix.
    assert (Hsan : sanitize buf = buf).
    { destruct (Z_le_gt_dec (Py.len (sanitize buf)) MAX_MESSAGE_LENGTH) as [H|H].
      - rewrite <- (display_short buf H). exact Hfix.
      - destruct (display_long buf H) as (front & Hs & Hl).
        pose proof (sublist_length _ _ (sanitize_sublist buf)) as Hle.
        rewrite Hfix in Hl. unfold Py.len in *. lia. }
    split; [|split].
    + intros i. apply match_at_none. rewrite <- Hsan. apply sanitize_tag_free.
    + destruct (strip_spec (Re.sub buf)) as (_ & _ & _ & _ & _ & Ht).
      fold (sanitize buf) in Ht. rewrite Hsan in Ht. exact Ht.
    + rewrite <- Hfix. apply display_bound.
  - intros (Hfree & Htrim & Hlen).
    assert (Hsan : sanitize buf = buf).
    { unfold sanitize. rewrite sub_fixed; [apply strip_trimmed, Htrim|].
      intros i. apply match_at_none, Hfree. }
    rewrite display_short; rewrite Hsan; [reflexivity|exact Hlen].
Qed.

Lemma X16_buffers_shown_unchanged_witness :
  display (Py.lit "a < b") = Py.lit "a < b" /\ display (Py.lit "a <b> ") <> Py.lit "a <b> ".
Proof.
  split.
  - apply (proj2 (X16_buffers_shown_unchanged (Py.lit "a < b"))).
    split; [|split].
    + intros i. apply match_at_none.
      do 6 (destruct i as [|i]; [reflexivity|]). destruct i; reflexivity.
    + split; reflexivity.
    + vm_compute. discriminate.
  - vm_compute. discriminate.
Defined.

(** ** Failed edits and the edits that follow *)

Lemma drain_edits_platform_free E1 E2 s :
  (forall k, monotonic E1 k = monotonic E2 k) ->
  forall acc last w1 w2,
    clock_reads w1 = clock_reads w2 ->
    exists evs1 evs2,
      drain E1 s acc last w1
      = (drained s acc, step (length (fragments s)) (length (calls evs1)) evs1 w1)
      /\ drain E2 s acc last w2
         = (drained s acc, step (length (fragments s)) (length (calls evs2)) evs2 w2)
      /\ edits evs1 = edits evs2.
Proof.
  intros Hclock.
  induction s as [|e|c rest IH]; intros acc last w1 w2 Hcr.
  - exists [], []. unfold drained. simpl. rewrite !step_0, app_nil_r. auto.
  - exists [], []. unfold drained. simpl. rewrite !step_0. auto.
  - assert (Hd : drained (Yield c rest) acc = drained rest (acc ++ c)).
    { unfold drained. simpl. rewrite <- app_assoc. reflexivity. }
    rewrite !drain_yield, Hd. cbv zeta. rewrite Hclock, Hcr.
    destruct (Qle_bool 4 (monotonic E2 (clock_reads w2) - last)).
    + set (f1 := telegram E1 (calls_made w1)). set (f2 := telegram E2 (calls_made w2)).
      destruct (IH (acc ++ c) (monotonic E2 (clock_reads w2))
                  (step 1 1 (flush_events (display (acc ++ c)) f1) w1)
                  (step 1 1 (flush_events (display (acc ++ c)) f2) w2))
        as (evs1 & evs2 & -> & -> & He); [simpl; congruence|].
      exists (flush_events (display (acc ++ c)) f1 ++ evs1),
             (flush_events (display (acc ++ c)) f2 ++ evs2).
      rewrite !step_step, !calls_app, !length_app, !calls_flush_events,
        !edits_flush_events, He.
      simpl. repeat split; do 2 f_equal; lia.
    + destruct (IH (acc ++ c) last (step 1 0 [] w1) (step 1 0 [] w2))
        as (evs1 & evs2 & -> & -> & He); [simpl; congruence|].
      exists evs1, evs2. rewrite !step_step. simpl.
      repeat split; try exact He; do 2 f_equal; lia.
Qed.

(** X17. A failed edit changes nothing but the log and the apology. Two
    runs of the same request, with the same clock and the same response, on
    platforms that both let the placeholder and the typing indicator out but
    fail edits differently, make the same edits with the same texts, up to one
    closing apology (which follows a failed final edit). *)
Theorem X17_edits_do_not_depend_on_edit_failures E1 E2 u su :
  from_user_id u ∈ AUTHORIZED_USERS -> from_user_id u ∈ su ->
  (forall k, monotonic E1 k = monotonic E2 k) ->
  completion E1 = completion E2 ->
  telegram E1 0 = None -> telegram E1 1 = None ->
  telegram E2 0 = None -> telegram E2 1 = None ->
  let e1 := edits (trace (final (handle_message E1 u (initial su)))) in
  let e2 := edits (trace (final (handle_message E2 u (initial su)))) in
  e1 = e2 \/ e1 = e2 ++ [APOLOGY] \/ e2 = e1 ++ [APOLOGY].
Proof.
  intros Hauth Hstarted Hclock Hresp H10 H11 H20 H21.
  destruct (drain_edits_platform_free E1 E2 (generator (completion E1)) Hclock []
              (monotonic E1 0)
              (step 1 2 (opening_events u) (initial su))
              (step 1 2 (opening_events u) (initial su)) eq_refl)
    as (evs1 & evs2 & Hd1 & Hd2 & He).
  rewrite Hresp in Hd2 at 1. rewrite Hclock in Hd2. rewrite Hresp in Hd2.
  destruct (handle_message_after_drain E1 u su evs1 Hauth Hstarted H10 H11 Hd1)
    as (_ & Ht1 & _).
  destruct (handle_message_after_drain E2 u su evs2 Hauth Hstarted H20 H21 Hd2)
    as (_ & Ht2 & _).
  cbv zeta. rewrite Ht1, Ht2, !edits_app, He, Hresp. unfold closing_events.
  destruct (ending (generator (completion E2))) as [e|]; [left; reflexivity|].
  destruct (telegram E1 (2 + length (calls evs1))),
           (telegram E2 (2 + length (calls evs2))); simpl.
  - left. reflexivity.
  - right. left. rewrite <- !app_assoc. reflexivity.
  - right. right. rewrite <- !app_assoc. reflexivity.
  - left. reflexivity.
Qed.

Lemma X17_edits_do_not_depend_on_edit_failures_witness :
  let resp := [text_chunk "a"; text_chunk "b"] in
  let E1 := {| monotonic := readings [0; 5; 10]; telegram := never_fails;
               completion := resp |} in
  let E2 := {| monotonic := readings [0; 5; 10];
               telegram := fails_at 2 (Error "Bad Request");
               completion := resp |} in
  let su : gset Z := {[ 123456789 ]} in
  (from_user_id alice ∈ su) /\
  edits (trace (final (handle_message E2 alice (initial su))))
  = [Py.lit "a"; Py.lit "ab"; Py.lit "ab"] /\
  (edits (trace (final (handle_message E1 alice (initial su))))
   = edits (trace (final (handle_message E2 alice (initial su))))
   \/ edits (trace (final (handle_message E1 alice (initial su))))
      = edits (trace (final (handle_message E2 alice (initial su)))) ++ [APOLOGY]
   \/ edits (trace (final (handle_message E2 alice (initial su))))
      = edits (trace (final (handle_message E1 alice (initial su)))) ++ [APOLOGY]).
Proof.
  intros resp E1 E2 su.
  assert (Hs : from_user_id alice ∈ su) by (apply elem_of_singleton; reflexivity).
  split; [exact Hs|]. split; [vm_compute; reflexivity|].
  exact (X17_edits_do_not_depend_on_edit_failures E1 E2 alice su
           alice_authorized Hs (fun k => eq_refl) eq_refl eq_refl eq_refl eq_refl eq_refl).
Defined.

(** ** A late last fragment *)




(** ** The order of the edits *)

Lemma sorted_map_S ks : StronglySorted lt ks -> StronglySorted lt (map S ks).
Proof.
  induction 1 as [|k ks _ IH Hk]; simpl; constructor; [exact IH|].
  apply Forall_map. eapply Forall_impl; [exact Hk|]. intros j Hj. simpl. lia.
Qed.

Lemma flushes_prefixes acc frs evs :
  flushes acc frs evs ->
  exists ks,
    edits evs = map (fun k => display (acc ++ concat (take k frs))) ks
    /\ StronglySorted lt ks
    /\ Forall (fun k => (1 <= k <= length frs)%nat) ks.
Proof.
  induction 1 as [acc|acc c0 frs evs _ (ks & He & Hs & Hb)
                 |acc c0 frs failure evs _ (ks & He & Hs & Hb)].
  - exists []. repeat split; constructor.
  - exists (map S ks). split; [|split].
    + rewrite He, map_map. apply map_ext. intros k. simpl.
      rewrite app_assoc. reflexivity.
    + apply sorted_map_S, Hs.
    + apply Forall_map. eapply Forall_impl; [exact Hb|]. intros k Hk. simpl in *. lia.
  - exists (1%nat :: map S ks). split; [|split].
    + rewrite edits_flush_events, He. simpl. rewrite map_map, ?take_0. simpl.
      rewrite app_nil_r. f_equal. apply map_ext. intros k.
      rewrite app_assoc. reflexivity.
    + constructor; [apply sorted_map_S, Hs|].
      apply Forall_map. eapply Forall_impl; [exact Hb|]. intros k Hk. simpl in *. lia.
    + constructor; [simpl; lia|].
      apply Forall_map. eapply Forall_impl; [exact Hb|]. intros k Hk. simpl in *. lia.
Qed.

(** X19. The edits of a request, in order: snapshots of the buffer after
    strictly growing numbers of fragments (the intermediate edits, at most one
    per fragment), and then the snapshot of the whole buffer, the apology, or
    the one after the other. *)
Theorem X19_edits_show_growing_prefixes E u su :
  from_user_id u ∈ AUTHORIZED_USERS -> from_user_id u ∈ su ->
  telegram E 0 = None -> telegram E 1 = None ->
  let frs := fragments (generator (completion E)) in
  exists ks closing,
    edits (trace (final (handle_message E u (initial su))))
    = map (snapshot frs) ks ++ closing
    /\ StronglySorted lt ks
    /\ Forall (fun k => (1 <= k <= length frs)%nat) ks
    /\ (closing = [snapshot frs (length frs)]
        \/ closing = [APOLOGY]
        \/ closing = [snapshot frs (length frs); APOLOGY]).
Proof.
  intros Hauth Hstarted H0 H1 frs.
  destruct (handle_message_streams E u su Hauth Hstarted H0 H1)
    as (evs & Hfl & _ & Htrace & _).
  destruct (flushes_prefixes _ _ _ Hfl) as (ks & He & Hs & Hb).
  exists ks. rewrite Htrace, !edits_app, He. simpl app.
  unfold closing_events, snapshot. fold frs.
  rewrite (firstn_all frs).
  destruct (ending (generator (completion E))) as [e|].
  - exists [APOLOGY]. repeat split; auto.
  - change (2 + length (calls evs))%nat with (S (S (length (calls evs)))).
    destruct (telegram E (S (S (length (calls evs))))) as [e|].
    + exists [display (concat frs); APOLOGY]. repeat split; auto.
    + exists [display (concat frs)]. repeat split; auto.
Qed.

Lemma X19_edits_show_growing_prefixes_witness :
  let E := {| monotonic := readings [0; 5; 6; 11]; telegram := never_fails;
              completion := [text_chunk "a"; text_chunk "b"; text_chunk "c"] |} in
  let su : gset Z := {[ 123456789 ]} in
  (from_user_id alice ∈ su) /\
  edits (trace (final (handle_message E alice (initial su))))
  = [Py.lit "a"; Py.lit "abc"; Py.lit "abc"] /\
  exists ks closing,
    edits (trace (final (handle_message E alice (initial su))))
    = map (snapshot (fragments (generator (completion E)))) ks ++ closing
    /\ StronglySorted lt ks.
Proof.
  intros E su.
  assert (Hs : from_user_id alice ∈ su) by (apply elem_of_singleton; reflexivity).
  split; [exact Hs|]. split; [vm_compute; reflexivity|].
  destruct (X19_edits_show_growing_prefixes E alice su alice_authorized Hs eq_refl eq_refl)
    as (ks & closing & He & Hsorted & _).
  exists ks, closing. split; assumption.
Defined.

(** ** The adapter around the generator *)

(** X20. The adapter sends one request, with the fixed model and the text
    it was given, and passes on what the inner generator yields: the same
    fragments in the same order, ending as the generator ends, normally or
    with the same exception. The loop that pulls them needs one pull for each
    fragment and one more. *)
Theorem X20_adapter_passes_the_generator_on E user_text w :
  exists s,
    stream_fireworks_api E user_text w
    = (Ok s, step 0 0 [Create MODEL user_text] w)
    /\ s = generator (completion E)
    /\ pulls s = S (length (fragments s))
    /\ forall n, (pulls s <= n)%nat -> while_true n s = s.
Proof.
  exists (generator (completion E)).
  unfold stream_fireworks_api. run. unfold mret, M_ret, ret.
  rewrite while_true_pulls. split; [reflexivity|]. split; [reflexivity|].
  generalize (generator (completion E)) as s. intros s. split.
  - induction s as [| |c rest IH]; simpl; lia.
  - induction s as [| |c rest IH]; intros [|n] Hn; simpl in *; try reflexivity; try lia.
    rewrite IH by lia. reflexivity.
Qed.
